(** * Interpreter.py: scanner, recursive-descent parser and evaluator

    A shallow embedding of [Interpreter.py] and the properties of its three
    stages.  The embedding follows the Python text class by class:

    - a Python [str] is a Rocq [string]; its characters are the code points
      U+0000..U+00FF, one [ascii] each;
    - an object with mutable fields ([Lexer], [Parser], [Interpreter]) is a
      record threaded through a small state monad; a raised exception keeps
      the state reached so far, as the Python object does;
    - the expression trees are the untyped tuples the parser builds, so the
      value universe [pyobj] has integers, strings and tuples, and the
      evaluator inspects tags and lengths as the source does;
    - [self.vars] is a finite map from names to values;
    - Python integers are unbounded ([Z]); CPython's limits on the depth of
      recursion and on the number of digits that [int] and [str] convert
      are left out. *)

From Stdlib Require Import ZArith String Ascii List Bool Lia DecimalString.
From stdpp Require Import gmap strings sorting.
Import ListNotations.

Open Scope string_scope.
Open Scope list_scope.
Open Scope nat_scope.

(** ** Outcomes and the state monad *)

(** The exceptions the program can meet: its own [InterpreterError], which
    carries the message it was raised with, and the built-in ones. *)
Inductive exn : Type :=
| InterpreterError (msg : string)
| ValueError
| IndexError
| KeyError
| TypeError
| AttributeError.

(** What a call does: it returns, it raises, or (for the loops and the
    recursive descent, which the model bounds by a budget) the budget ran
    out. *)
Inductive outcome (A : Type) : Type :=
| Return (a : A)
| Raise (e : exn)
| OutOfFuel.

Arguments Return {A} a.
Arguments Raise {A} e.
Arguments OutOfFuel {A}.

(** Sequencing without state. *)
Definition then_ {A B : Type} (o : outcome A) (k : A -> outcome B) : outcome B :=
  match o with
  | Return a => k a
  | Raise e => Raise e
  | OutOfFuel => OutOfFuel
  end.

Definition M (S A : Type) : Type := S -> outcome A * S.

Definition ret {S A : Type} (a : A) : M S A := fun s => (Return a, s).

Definition raise {S A : Type} (e : exn) : M S A := fun s => (Raise e, s).

Definition out_of_fuel {S A : Type} : M S A := fun s => (OutOfFuel, s).

Definition bind {S A B : Type} (m : M S A) (k : A -> M S B) : M S B :=
  fun s =>
    match m s with
    | (Return a, s') => k a s'
    | (Raise e, s') => (Raise e, s')
    | (OutOfFuel, s') => (OutOfFuel, s')
    end.

Definition lift {S A : Type} (o : outcome A) : M S A := fun s => (o, s).

Definition gets {S A : Type} (f : S -> A) : M S A := fun s => (Return (f s), s).

Definition modify {S : Type} (f : S -> S) : M S unit := fun s => (Return tt, f s).

Declare Scope monad_scope.
Delimit Scope monad_scope with monad.
Notation "x <- m ;; k" := (bind m (fun x => k))
  (at level 100, m at level 99, k at level 200, right associativity) : monad_scope.
Notation "m ;; k" := (bind m (fun _ => k))
  (at level 100, k at level 200, right associativity) : monad_scope.
Open Scope monad_scope.

(** ** Python values *)

(** The objects the interpreter handles: integers, strings and tuples.  An
    expression node is a tuple whose first component is a string tag:
    [('lit', 3)], [('var', 'x')], [('-', e)], [('+', l, r)]. *)
#[local] Unset Elimination Schemes.
Inductive pyobj : Type :=
| PyInt (z : Z)
| PyStr (s : string)
| PyTuple (items : list pyobj).
#[local] Set Elimination Schemes.

(** ** The Python built-ins the program calls *)

Module Py.

Definition code (c : ascii) : N := N_of_ascii c.

Definition between (lo hi : N) (c : ascii) : bool :=
  ((lo <=? code c) && (code c <=? hi))%N.

(** [str.isspace] on U+0000..U+00FF: TAB..CR, FS..US, space, NEL, NBSP. *)
Definition isspace (c : ascii) : bool :=
  between 9 13 c || between 28 32 c || between 133 133 c || between 160 160 c.

(** [str.isalpha]: the letters (general category L). *)
Definition isalpha (c : ascii) : bool :=
  between 65 90 c || between 97 122 c
  || between 170 170 c || between 181 181 c || between 186 186 c
  || between 192 214 c || between 216 246 c || between 248 255 c.

(** [str.isdecimal]: the decimal digits (general category Nd). *)
Definition isdecimal (c : ascii) : bool := between 48 57 c.

(** [str.isdigit]: the decimal digits and the superscripts 1, 2, 3. *)
Definition isdigit (c : ascii) : bool :=
  isdecimal c || between 178 179 c || between 185 185 c.

(** [str.isnumeric]: the digits and the vulgar fractions. *)
Definition isnumeric (c : ascii) : bool := isdigit c || between 188 190 c.

Definition isalnum (c : ascii) : bool :=
  isalpha c || isdecimal c || isdigit c || isnumeric c.

(** [s[i:j]] for [0 <= i], [0 <= j]: indices beyond the end are clipped. *)
Fixpoint drop (n : nat) (s : string) : string :=
  match n, s with
  | 0, _ => s
  | S n', String _ s' => drop n' s'
  | S _, EmptyString => EmptyString
  end.

Fixpoint take (n : nat) (s : string) : string :=
  match n, s with
  | S n', String c s' => String c (take n' s')
  | _, _ => EmptyString
  end.

Definition slice (s : string) (i j : nat) : string := take (j - i) (drop i s).

(** *** [int(s)]: a string to an integer, base 10 *)

(** The white space [int] strips at both ends. *)
Definition int_space (c : ascii) : bool :=
  between 9 13 c || between 32 32 c || between 133 133 c || between 160 160 c.

Fixpoint skip_spaces (s : string) : string :=
  match s with
  | String c s' => if int_space c then skip_spaces s' else s
  | EmptyString => EmptyString
  end.

Definition digit_value (c : ascii) : Z := Z.of_N (code c) - 48.

(** The digits after the first one; a single underscore may sit between
    two digits.  Returns the value and the text left over. *)
Fixpoint int_digits (acc : Z) (s : string) : option (Z * string) :=
  match s with
  | String c s' =>
      if isdecimal c then int_digits (acc * 10 + digit_value c) s'
      else if (c =? "_")%char then
        match s' with
        | String d s'' =>
            if isdecimal d then int_digits (acc * 10 + digit_value d) s''
            else None
        | EmptyString => None
        end
      else Some (acc, s)
  | EmptyString => Some (acc, EmptyString)
  end.

Definition int_unsigned (s : string) : outcome Z :=
  match s with
  | String c s' =>
      if isdecimal c then
        match int_digits (digit_value c) s' with
        | Some (v, rest) =>
            match skip_spaces rest with
            | EmptyString => Return v
            | String _ _ => Raise ValueError
            end
        | None => Raise ValueError
        end
      else Raise ValueError
  | EmptyString => Raise ValueError
  end.

Definition int (s : string) : outcome Z :=
  match skip_spaces s with
  | String c s' =>
      if (c =? "+")%char then int_unsigned s'
      else if (c =? "-")%char then then_ (int_unsigned s') (fun v => Return (- v)%Z)
      else int_unsigned (String c s')
  | EmptyString => Raise ValueError
  end.

(** *** [str(o)] and [repr(o)] *)

Definition str_of_int (z : Z) : string :=
  DecimalString.NilZero.string_of_int (Z.to_int z).

Definition hex_digit (n : N) : ascii :=
  if (n <? 10)%N then ascii_of_N (48 + n) else ascii_of_N (87 + n).

Definition printable (c : ascii) : bool :=
  negb (between 0 31 c || between 127 160 c || between 173 173 c).

Definition contains (c : ascii) (s : string) : bool :=
  existsb (Ascii.eqb c) (list_ascii_of_string s).

Definition backslash : ascii := "092".
Definition squote : ascii := "039".
Definition dquote : ascii := "034".

Definition escape (c : ascii) : string := String backslash (String c "").

Fixpoint repr_chars (quote : ascii) (s : string) : string :=
  match s with
  | EmptyString => EmptyString
  | String c s' =>
      (if (c =? quote)%char || (c =? backslash)%char then escape c
       else if (c =? "009")%char then escape "t"
       else if (c =? "010")%char then escape "n"
       else if (c =? "013")%char then escape "r"
       else if printable c then String c ""
       else String backslash (String "x"
              (String (hex_digit (code c / 16)) (String (hex_digit (code c mod 16)) ""))))
      +:+ repr_chars quote s'
  end.

Definition repr_str (s : string) : string :=
  let quote := if contains squote s && negb (contains dquote s) then dquote else squote in
  String quote (repr_chars quote s +:+ String quote "").

Fixpoint repr (o : pyobj) : string :=
  match o with
  | PyInt z => str_of_int z
  | PyStr s => repr_str s
  | PyTuple items =>
      match items with
      | [] => "()"
      | [x] => "(" +:+ repr x +:+ ",)"
      | x :: rest =>
          "(" +:+ repr x
          +:+ (fix tail (l : list pyobj) : string :=
                 match l with
                 | [] => ")"
                 | y :: l' => ", " +:+ repr y +:+ tail l'
                 end) rest
      end
  end.

Definition str (o : pyobj) : string :=
  match o with
  | PyStr s => s
  | _ => repr o
  end.

(** *** Arithmetic on objects: [-a], [a + b], [a - b], [a * b] *)

Definition neg (a : pyobj) : outcome pyobj :=
  match a with
  | PyInt x => Return (PyInt (- x))
  | _ => Raise TypeError
  end.

Definition add (a b : pyobj) : outcome pyobj :=
  match a, b with
  | PyInt x, PyInt y => Return (PyInt (x + y))
  | PyStr x, PyStr y => Return (PyStr (x +:+ y))
  | PyTuple x, PyTuple y => Return (PyTuple (x ++ y))
  | _, _ => Raise TypeError
  end.

Definition sub (a b : pyobj) : outcome pyobj :=
  match a, b with
  | PyInt x, PyInt y => Return (PyInt (x - y))
  | _, _ => Raise TypeError
  end.

Fixpoint repeat_str (n : nat) (s : string) : string :=
  match n with
  | 0 => EmptyString
  | S n' => s +:+ repeat_str n' s
  end.

Fixpoint repeat_list {A : Type} (n : nat) (l : list A) : list A :=
  match n with
  | 0 => []
  | S n' => l ++ repeat_list n' l
  end.

Definition mul (a b : pyobj) : outcome pyobj :=
  match a, b with
  | PyInt x, PyInt y => Return (PyInt (x * y))
  | PyStr s, PyInt n | PyInt n, PyStr s => Return (PyStr (repeat_str (Z.to_nat n) s))
  | PyTuple l, PyInt n | PyInt n, PyTuple l => Return (PyTuple (repeat_list (Z.to_nat n) l))
  | _, _ => Raise TypeError
  end.

(** [o == s] for a string [s]: only an equal string is equal to it. *)
Definition eq_str (o : pyobj) (s : string) : bool :=
  match o with
  | PyStr t => String.eqb t s
  | _ => false
  end.

End Py.

(** ** Tokens *)

(** [class Token]: a type tag and a text, both Python strings. *)
Record Token : Type := mkToken { ttype : string; value : string }.

(** ** The scanner *)

Module Lexer.

Definition IDENTIFIER : string := "IDENTIFIER".
Definition LITERAL : string := "LITERAL".
Definition PLUS : string := "+".
Definition MINUS : string := "-".
Definition TIMES : string := "*".
Definition LPAREN : string := "(".
Definition RPAREN : string := ")".
Definition ASSIGN : string := "=".
Definition SEMI : string := ";".
Definition EOF : string := "EOF".

(** The fields [__init__] sets; [length] is [len(text)] and never
    changes. *)
Record state : Type := mkLexer { text : string; pos : nat; length : nat }.

Definition init (text : string) : state :=
  {| text := text; pos := 0; length := String.length text |}.

Definition error {A : Type} (msg : string) : M state A :=
  raise (InterpreterError ("Lexical error: " +:+ msg)).

(** [peek]: the current character, [None] past the end. *)
Definition peek (self : state) : option ascii :=
  if pos self <? length self then String.get (pos self) (text self) else None.

Definition advance (self : state) : state :=
  {| text := text self; pos := pos self + 1; length := length self |}.

(** [self.text[i]] *)
Definition text_at (i : nat) : M state ascii :=
  fun self =>
    match String.get i (text self) with
    | Some c => (Return c, self)
    | None => (Raise IndexError, self)
    end.

(** [while self.peek() and p(self.peek()): self.advance()].  The loop
    runs at most [length - pos] times, which is the budget [n]; when the
    budget is 0 the cursor is at the end and [peek] is [None]. *)
Fixpoint advance_while (p : ascii -> bool) (n : nat) (self : state) : state :=
  match n with
  | 0 => self
  | S n' =>
      match peek self with
      | Some c => if p c then advance_while p n' (advance self) else self
      | None => self
      end
  end.

Definition while_peek (p : ascii -> bool) (self : state) : state :=
  advance_while p (length self - pos self) self.

Definition skip_whitespace (self : state) : state :=
  while_peek Py.isspace self.

Definition next_token : M state Token :=
  modify skip_whitespace ;;
  current_char <- gets peek ;;
  match current_char with
  | None => ret (mkToken EOF "")
  | Some c =>
      if (c =? "+")%char then modify advance ;; ret (mkToken PLUS "+")
      else if (c =? "-")%char then modify advance ;; ret (mkToken MINUS "-")
      else if (c =? "*")%char then modify advance ;; ret (mkToken TIMES "*")
      else if (c =? "(")%char then modify advance ;; ret (mkToken LPAREN "(")
      else if (c =? ")")%char then modify advance ;; ret (mkToken RPAREN ")")
      else if (c =? "=")%char then modify advance ;; ret (mkToken ASSIGN "=")
      else if (c =? ";")%char then modify advance ;; ret (mkToken SEMI ";")
      else if Py.isalpha c || (c =? "_")%char then
        start_pos <- gets pos ;;
        modify (while_peek (fun c' => Py.isalnum c' || (c' =? "_")%char)) ;;
        value <- gets (fun self => Py.slice (text self) start_pos (pos self)) ;;
        ret (mkToken IDENTIFIER value)
      else if Py.isdigit c then
        start_pos <- gets pos ;;
        modify advance ;;
        first <- text_at start_pos ;;
        (if negb (first =? "0")%char
         then modify (while_peek Py.isdigit)
         else
           next <- gets peek ;;
           match next with
           | Some d =>
               if Py.isdigit d
               then error "Invalid number format (leading zero)."
               else ret tt
           | None => ret tt
           end) ;;
        value <- gets (fun self => Py.slice (text self) start_pos (pos self)) ;;
        ret (mkToken LITERAL value)
      else error ("Unexpected character: " +:+ String c "")
  end.

(** [tokenize]: the [while True] loop; every round but the last moves the
    cursor, so [length - pos + 1] rounds are enough (see
    [tokenize_returns_or_raises]). *)
Fixpoint tokenize_loop (fuel : nat) (tokens : list Token) : M state (list Token) :=
  match fuel with
  | 0 => out_of_fuel
  | S fuel' =>
      token <- next_token ;;
      let tokens := tokens ++ [token] in
      if String.eqb (ttype token) EOF then ret tokens
      else tokenize_loop fuel' tokens
  end.

Definition tokenize : M state (list Token) :=
  fun self => tokenize_loop (S (length self - pos self)) [] self.

End Lexer.

(** ** The parser *)

(** An assignment statement, the triple [('assign', name, exp)]. *)
Definition assign : Type := string * string * pyobj.

Module Parser.

Record state : Type := mkParser { tokens : list Token; pos : nat }.

Definition init (tokens : list Token) : state := {| tokens := tokens; pos := 0 |}.

Definition error {A : Type} (msg : string) : M state A :=
  raise (InterpreterError ("Syntax error: " +:+ msg)).

Definition peek (self : state) : option Token :=
  if pos self <? List.length (tokens self) then tokens self !! pos self else None.

Definition step (self : state) : state :=
  {| tokens := tokens self; pos := pos self + 1 |}.

(** [consume(ttype)]; [consume None] is the call without an argument. *)
Definition consume (expected : option string) : M state Token :=
  token <- gets peek ;;
  match token with
  | None => error "Unexpected end of input."
  | Some token =>
      match expected with
      | Some ttype' =>
          if negb (String.eqb (ttype token) ttype')
          then error ("Expected " +:+ ttype' +:+ ", got " +:+ ttype token)
          else modify step ;; ret token
      | None => modify step ;; ret token
      end
  end.

(** The grammar procedures.  Python runs them by mutual recursion and two
    [while True] loops; [fuel] bounds the depth of calls and loop rounds
    together. *)
Fixpoint exp (fuel : nat) : M state pyobj :=
  match fuel with
  | 0 => out_of_fuel
  | S fuel' =>
      node <- term fuel' ;;
      exp_loop fuel' node
  end
with exp_loop (fuel : nat) (node : pyobj) : M state pyobj :=
  match fuel with
  | 0 => out_of_fuel
  | S fuel' =>
      token <- gets peek ;;
      match token with
      | Some token =>
          if String.eqb (ttype token) "+" || String.eqb (ttype token) "-" then
            op_token <- consume None ;;
            let op := value op_token in
            right <- term fuel' ;;
            exp_loop fuel' (PyTuple [PyStr op; node; right])
          else ret node
      | None => ret node
      end
  end
with term (fuel : nat) : M state pyobj :=
  match fuel with
  | 0 => out_of_fuel
  | S fuel' =>
      node <- fact fuel' ;;
      term_loop fuel' node
  end
with term_loop (fuel : nat) (node : pyobj) : M state pyobj :=
  match fuel with
  | 0 => out_of_fuel
  | S fuel' =>
      token <- gets peek ;;
      match token with
      | Some token =>
          if String.eqb (ttype token) "*" then
            consume (Some "*") ;;
            right <- fact fuel' ;;
            term_loop fuel' (PyTuple [PyStr "*"; node; right])
          else ret node
      | None => ret node
      end
  end
with fact (fuel : nat) : M state pyobj :=
  match fuel with
  | 0 => out_of_fuel
  | S fuel' =>
      token <- gets peek ;;
      match token with
      | None => raise AttributeError
      | Some token =>
          if String.eqb (ttype token) "(" then
            consume (Some "(") ;;
            node <- exp fuel' ;;
            consume (Some ")") ;;
            ret node
          else if String.eqb (ttype token) "+" then
            consume (Some "+") ;;
            node <- fact fuel' ;;
            ret (PyTuple [PyStr "+"; node])
          else if String.eqb (ttype token) "-" then
            consume (Some "-") ;;
            node <- fact fuel' ;;
            ret (PyTuple [PyStr "-"; node])
          else if String.eqb (ttype token) "LITERAL" then
            literal <- consume (Some "LITERAL") ;;
            n <- lift (Py.int (value literal)) ;;
            ret (PyTuple [PyStr "lit"; PyInt n])
          else if String.eqb (ttype token) "IDENTIFIER" then
            name <- consume (Some "IDENTIFIER") ;;
            ret (PyTuple [PyStr "var"; PyStr (value name)])
          else error "Invalid factor"
      end
  end.

Definition assignment (fuel : nat) : M state assign :=
  lhs <- consume (Some "IDENTIFIER") ;;
  consume (Some "=") ;;
  e <- exp fuel ;;
  consume (Some ";") ;;
  ret ("assign", value lhs, e).

Fixpoint parse_loop (fuel : nat) (assignments : list assign) : M state (list assign) :=
  match fuel with
  | 0 => out_of_fuel
  | S fuel' =>
      token <- gets peek ;;
      match token with
      | None => ret assignments
      | Some token =>
          if String.eqb (ttype token) "EOF" then ret assignments
          else
            a <- assignment fuel' ;;
            parse_loop fuel' (assignments ++ [a])
      end
  end.

(** Three levels of calls per token and three to start are enough fuel
    (see [parse_returns_or_raises]). *)
Definition parse : M state (list assign) :=
  fun self => parse_loop (3 * (List.length (tokens self) - pos self) + 3) [] self.

End Parser.

(** ** The evaluator *)

Module Interpreter.

Record state : Type :=
  mkInterpreter { assignments : list assign; vars : gmap string pyobj }.

Definition init (assignments : list assign) : state :=
  {| assignments := assignments; vars := ∅ |}.

(** [var_name in self.vars]: the keys are strings, so no other object is
    one of them. *)
Definition lookup_var (self : state) (var_name : pyobj) : option pyobj :=
  match var_name with
  | PyStr name => vars self !! name
  | _ => None
  end.

(** [eval_exp] reads [self.vars] and changes nothing, so it is a
    function of [self].  [node[1]] and [node[2]] are taken by matching on
    the components after the tag. *)
Fixpoint eval_exp (self : state) (node : pyobj) : outcome pyobj :=
  match node with
  | PyTuple items =>
      match items with
      | [] => Raise IndexError
      | nodetype :: rest =>
          if Py.eq_str nodetype "lit" then
            match rest with
            | v :: _ => Return v
            | [] => Raise IndexError
            end
          else if Py.eq_str nodetype "var" then
            match rest with
            | var_name :: _ =>
                match lookup_var self var_name with
                | None =>
                    Raise (InterpreterError ("Uninitialized variable: " +:+ Py.str var_name))
                | Some v => Return v
                end
            | [] => Raise IndexError
            end
          else if (Py.eq_str nodetype "+" || Py.eq_str nodetype "-")
                  && (List.length items =? 2) then
            match rest with
            | operand :: _ =>
                then_ (eval_exp self operand) (fun val =>
                if Py.eq_str nodetype "+" then Return val else Py.neg val)
            | [] => Raise IndexError
            end
          else if (Py.eq_str nodetype "+" || Py.eq_str nodetype "-" || Py.eq_str nodetype "*")
                  && (List.length items =? 3) then
            match rest with
            | l :: r :: _ =>
                then_ (eval_exp self l) (fun left' =>
                then_ (eval_exp self r) (fun right' =>
                if Py.eq_str nodetype "+" then Py.add left' right'
                else if Py.eq_str nodetype "-" then Py.sub left' right'
                else Py.mul left' right'))
            | _ => Raise IndexError
            end
          else Raise (InterpreterError "Unknown node structure in evaluation.")
      end
  | _ => Raise (InterpreterError "Invalid AST node.")
  end.

Definition set_var (varname : string) (v : pyobj) (self : state) : state :=
  {| assignments := assignments self; vars := <[varname := v]> (vars self) |}.

(** The first [for] loop of [run]. *)
Fixpoint run_assignments (l : list assign) : M state unit :=
  match l with
  | [] => ret tt
  | (_, varname, e) :: l' =>
      v <- (fun self => lift (eval_exp self e) self) ;;
      modify (set_var varname v) ;;
      run_assignments l'
  end.

Definition sorted (names : list string) : list string := merge_sort String.le names.

Definition keys (d : gmap string pyobj) : list string := elements (dom d).

(** The second [for] loop of [run]: the lines it prints. *)
Fixpoint print_vars (names : list string) : M state (list string) :=
  match names with
  | [] => ret []
  | var :: names' =>
      fun self =>
        match vars self !! var with
        | Some v =>
            bind (print_vars names')
                 (fun lines => ret ((var +:+ " = " +:+ Py.str v) :: lines)) self
        | None => (Raise KeyError, self)
        end
  end.

(** [run]: returns the lines written to standard output. *)
Definition run : M state (list string) :=
  l <- gets assignments ;;
  run_assignments l ;;
  names <- gets (fun self => sorted (keys (vars self))) ;;
  print_vars names.

End Interpreter.

(** ** The driver *)

(** [run_program]: the standard output of a run, or the exception that
    ends it. *)
Definition run_program (program : string) : outcome (list string) :=
  let lexer := Lexer.init program in
  then_ (fst (Lexer.tokenize lexer)) (fun tokens =>
  let parser := Parser.init tokens in
  then_ (fst (Parser.parse parser)) (fun assignments =>
  let interpreter := Interpreter.init assignments in
  fst (Interpreter.run interpreter))).

(** The scanner and the parser alone: the statements of a program. *)
Definition parse_program (program : string) : outcome (list assign) :=
  then_ (fst (Lexer.tokenize (Lexer.init program))) (fun tokens =>
  fst (Parser.parse (Parser.init tokens))).

(** The line feed, and the program of the [__main__] block without its
    leading and trailing blanks. *)
Definition nl : string := String "010" "".

Definition worked_example : string :=
  "x = 1;" +:+ nl +:+ "y = 2;" +:+ nl +:+ "z = ---(x+y)*(x+-y);".

(** ** Predicates used in the statements *)

(** The seven one-character tokens. *)
Definition punctuation (c : ascii) : bool :=
  existsb (Ascii.eqb c) ["+"; "-"; "*"; "("; ")"; "="; ";"]%char.

Definition identifier_start (c : ascii) : bool := Py.isalpha c || (c =? "_")%char.

Definition identifier_char (c : ascii) : bool := Py.isalnum c || (c =? "_")%char.

(** What one call of [next_token] does, by the character [c] under the
    cursor once white space is skipped: [scanned s1 o s2] relates the state
    [s1] after [skip_whitespace], the outcome and the final state. *)
Inductive scanned (s1 : Lexer.state) : outcome Token -> Lexer.state -> Prop :=
| scanned_eof :
    Lexer.peek s1 = None ->
    scanned s1 (Return (mkToken "EOF" "")) s1
| scanned_punctuation c :
    Lexer.peek s1 = Some c -> punctuation c = true ->
    scanned s1 (Return (mkToken (String c "") (String c ""))) (Lexer.advance s1)
| scanned_identifier c :
    Lexer.peek s1 = Some c -> punctuation c = false -> identifier_start c = true ->
    scanned s1
      (Return (mkToken "IDENTIFIER"
         (Py.slice (Lexer.text s1) (Lexer.pos s1)
            (Lexer.pos (Lexer.while_peek identifier_char s1)))))
      (Lexer.while_peek identifier_char s1)
| scanned_number c :
    Lexer.peek s1 = Some c -> punctuation c = false -> identifier_start c = false ->
    Py.isdigit c = true -> c <> "0"%char ->
    scanned s1
      (Return (mkToken "LITERAL"
         (Py.slice (Lexer.text s1) (Lexer.pos s1)
            (Lexer.pos (Lexer.while_peek Py.isdigit (Lexer.advance s1))))))
      (Lexer.while_peek Py.isdigit (Lexer.advance s1))
| scanned_zero :
    Lexer.peek s1 = Some "0"%char ->
    match Lexer.peek (Lexer.advance s1) with
    | Some d => Py.isdigit d = false
    | None => True
    end ->
    scanned s1
      (Return (mkToken "LITERAL" (Py.slice (Lexer.text s1) (Lexer.pos s1) (Lexer.pos s1 + 1))))
      (Lexer.advance s1)
| scanned_leading_zero d :
    Lexer.peek s1 = Some "0"%char ->
    Lexer.peek (Lexer.advance s1) = Some d -> Py.isdigit d = true ->
    scanned s1
      (Raise (InterpreterError "Lexical error: Invalid number format (leading zero)."))
      (Lexer.advance s1)
| scanned_unexpected c :
    Lexer.peek s1 = Some c -> punctuation c = false -> identifier_start c = false ->
    Py.isdigit c = false ->
    scanned s1
      (Raise (InterpreterError ("Lexical error: Unexpected character: " +:+ String c "")))
      s1.

(** A token whose type is ['+'] or ['-'] carries the same text: the
    parser builds a binary node from the text, the evaluator reads it as
    the operator. *)
Definition sign_token_ok (t : Token) : Prop :=
  ttype t = "+" \/ ttype t = "-" -> value t = ttype t.

(** Strictly ascending order of names, by code point. *)
Definition string_lt (a b : string) : Prop := String.ltb a b = true.

(** The line [print] writes for a binding. *)
Definition report_line (name : string) (v : pyobj) : string :=
  name +:+ " = " +:+ Py.str v.

(** The four shapes of node the grammar procedures build. *)
Inductive well_formed : pyobj -> Prop :=
| wf_lit n : well_formed (PyTuple [PyStr "lit"; PyInt n])
| wf_var name : well_formed (PyTuple [PyStr "var"; PyStr name])
| wf_unary op e :
    op = "+" \/ op = "-" -> well_formed e ->
    well_formed (PyTuple [PyStr op; e])
| wf_binary op l r :
    op = "+" \/ op = "-" \/ op = "*" -> well_formed l -> well_formed r ->
    well_formed (PyTuple [PyStr op; l; r]).

(** A grammar procedure is sound when, on tokens from the scanner, every
    node it returns has one of the four shapes; it never changes the token
    list. *)
Definition sound (m : M Parser.state pyobj) : Prop :=
  forall self node self',
    Forall sign_token_ok (Parser.tokens self) ->
    m self = (Return node, self') ->
    well_formed node /\ Parser.tokens self' = Parser.tokens self.

(** *** Chains of operators *)

(** The tokens from the cursor on, and the state [n] tokens further. *)
Definition remaining (self : Parser.state) : list Token :=
  drop (Parser.pos self) (Parser.tokens self).

Definition skip (n : nat) (self : Parser.state) : Parser.state :=
  {| Parser.tokens := Parser.tokens self; Parser.pos := Parser.pos self + n |}.

Definition identifier (name : string) : Token := mkToken "IDENTIFIER" name.

Definition operator (op : string) : Token := mkToken op op.

Definition var (name : string) : pyobj := PyTuple [PyStr "var"; PyStr name].

(** A chain [a0 op1 a1 ... opn an] of names is [a0] and the list of the
    pairs [(opi, ai)]; these are its tokens after [a0]. *)
Definition chain_tokens (chain : list (string * string)) : list Token :=
  flat_map (fun step => [operator step.1; identifier step.2]) chain.

(** The tree that groups the chain from the left, starting from [acc]. *)
Definition fold_chain (acc : pyobj) (chain : list (string * string)) : pyobj :=
  fold_left (fun acc step => PyTuple [PyStr step.1; acc; var step.2]) chain acc.

Definition additive (step : string * string) : Prop := step.1 = "+" \/ step.1 = "-".

Definition multiplicative (step : string * string) : Prop := step.1 = "*".

(** The tokens of the statement [x = a0 op1 a1 ... opn an ;] and the end
    of input. *)
Definition chain_statement (x a0 : string) (chain : list (string * string)) : list Token :=
  identifier x :: operator "=" :: identifier a0
  :: chain_tokens chain ++ [operator ";"; mkToken "EOF" ""].

(** The tokens not yet consumed. *)
Definition rest (self : Parser.state) : nat :=
  List.length (Parser.tokens self) - Parser.pos self.


(** The two defensive [raise] statements of [eval_exp]. *)
Definition defensive_error (e : exn) : Prop :=
  e = InterpreterError "Invalid AST node." \/
  e = InterpreterError "Unknown node structure in evaluation.".

(** The raised error would report the position if the position could be
    read off it: some function of the exception gives, for every failing
    text, the index at which the scanner stopped. *)
Definition lexical_error_reports_position : Prop :=
  exists position_of : exn -> nat,
    forall (text : string) (e : exn) (self' : Lexer.state),
      Lexer.tokenize (Lexer.init text) = (Raise e, self') ->
      position_of e = Lexer.pos self'.

(** ** Predicates of the further properties *)

(** Every character of [s] passes the test [p]. *)
Definition all_chars (p : ascii -> bool) (s : string) : bool :=
  forallb p (list_ascii_of_string s).

(** The text of an identifier: a letter or underscore, then letters,
    digits and underscores. *)
Definition identifier_text (s : string) : Prop :=
  exists c tail,
    s = String c tail /\ identifier_start c = true /\
    all_chars identifier_char tail = true.

(** The text of a literal: ["0"] alone, or digits of which the first is
    not ["0"]. *)
Definition literal_text (s : string) : Prop :=
  s = "0" \/
  exists c tail,
    s = String c tail /\ Py.isdigit c = true /\ c <> "0"%char /\
    all_chars Py.isdigit tail = true.

(** The four kinds of token the scanner makes. *)
Definition token_ok (t : Token) : Prop :=
  (exists c, punctuation c = true /\ t = mkToken (String c "") (String c "")) \/
  (ttype t = "IDENTIFIER" /\ identifier_text (value t)) \/
  (ttype t = "LITERAL" /\ literal_text (value t)) \/
  t = mkToken "EOF" "".













(** The name an assignment statement binds. *)
Definition target (a : assign) : string := a.1.2.


Definition is_sign (sign : string) : Prop := sign = "+" \/ sign = "-".


(** The tokens an expression is made of. *)
Definition is_expression_token (t : Token) : bool :=
  existsb (String.eqb (ttype t)) ["("; ")"; "+"; "-"; "*"; "LITERAL"; "IDENTIFIER"].

(** The tokens before the first end-of-input token. *)
Fixpoint before_EOF (tokens : list Token) : list Token :=
  match tokens with
  | [] => []
  | t :: tokens' =>
      if String.eqb (ttype t) "EOF" then [] else t :: before_EOF tokens'
  end.

(** The texts of the tokens that stand right before an ['='] token, in
    order. *)
Fixpoint targets_of (tokens : list Token) : list string :=
  match tokens with
  | [] => []
  | t :: tokens' =>
      match tokens' with
      | u :: _ =>
          if String.eqb (ttype u) "=" then value t :: targets_of tokens'
          else targets_of tokens'
      | [] => []
      end
  end.

(** The number of [';'] tokens. *)
Definition semicolons (tokens : list Token) : nat :=
  List.length (List.filter (fun t => String.eqb (ttype t) ";") tokens).

(** A grammar procedure that returns has consumed a run of expression
    tokens. *)
Definition consumes_expression (m : M Parser.state pyobj) : Prop :=
  forall self node self',
    m self = (Return node, self') ->
    exists seg,
      remaining self = seg ++ remaining self' /\
      forallb is_expression_token seg = true.

(** A product [a0 * a1 * ... * an] of names: [a0] and its chain of
    multiplications; its tokens and the tree grouped from the left. *)
Definition product : Type := string * list (string * string).

Definition product_tokens (p : product) : list Token :=
  identifier p.1 :: chain_tokens p.2.

Definition product_tree (p : product) : pyobj := fold_chain (var p.1) p.2.

(** A sum of products [p0 s1 p1 ... sn pn], each [si] a plus or a minus
    sign: the tokens after [p0], and the tree grouped from the left. *)
Definition sum_tokens (terms : list (string * product)) : list Token :=
  flat_map (fun step => operator step.1 :: product_tokens step.2) terms.

Definition sum_tree (acc : pyobj) (terms : list (string * product)) : pyobj :=
  fold_left (fun acc step => PyTuple [PyStr step.1; acc; product_tree step.2]) terms acc.

Definition signed_product (step : string * product) : Prop :=
  is_sign step.1 /\ Forall multiplicative step.2.2.


(** The scanner state [s] moved behind a prefix [pre]: the same cursor in
    the longer text. *)
Definition shift (pre : string) (s : Lexer.state) : Lexer.state :=
  {| Lexer.text := pre +:+ Lexer.text s;
     Lexer.pos := String.length pre + Lexer.pos s;
     Lexer.length := String.length pre + Lexer.length s |}.

(** [Token.__repr__] *)
Definition Token_repr (t : Token) : string :=
  "Token(" +:+ ttype t +:+ ", " +:+ value t +:+ ")".

(** * Properties *)

(** ** The monad *)

Lemma bind_unfold {S A B : Type} (m : M S A) (k : A -> M S B) (s : S) :
  bind m k s =
  match m s with
  | (Return a, s') => k a s'
  | (Raise e, s') => (Raise e, s')
  | (OutOfFuel, s') => (OutOfFuel, s')
  end.
Proof. reflexivity. Qed.

Lemma bind_Return {S A B : Type} (m : M S A) (k : A -> M S B) s b s' :
  bind m k s = (Return b, s') ->
  exists a s1, m s = (Return a, s1) /\ k a s1 = (Return b, s').
Proof.
  unfold bind. destruct (m s) as [[a|e|] s1]; intros H; try discriminate.
  exists a, s1. split; [reflexivity | exact H].
Qed.

(** ** The scanner *)

Module LexerFacts.

Lemma cursor_on_char self c :
  Lexer.peek self = Some c ->
  Lexer.pos self < Lexer.length self /\
  String.get (Lexer.pos self) (Lexer.text self) = Some c.
Proof.
  unfold Lexer.peek. destruct (Lexer.pos self <? Lexer.length self) eqn:E.
  - apply Nat.ltb_lt in E. auto.
  - discriminate.
Qed.

(** *** The [while] loops *)

Lemma advance_while_fields p n self :
  Lexer.text (Lexer.advance_while p n self) = Lexer.text self /\
  Lexer.length (Lexer.advance_while p n self) = Lexer.length self /\
  Lexer.pos self <= Lexer.pos (Lexer.advance_while p n self).
Proof.
  revert self. induction n as [|n IH]; intros self; simpl.
  - auto.
  - destruct (Lexer.peek self) as [c|]; [|auto].
    destruct (p c); [|auto].
    destruct (IH (Lexer.advance self)) as (Ht & Hl & Hp). simpl in *.
    repeat split; [assumption | assumption | lia].
Qed.

(** Any budget that covers the rest of the text gives the same run. *)
Lemma advance_while_budget p n m self :
  Lexer.length self - Lexer.pos self <= n ->
  Lexer.length self - Lexer.pos self <= m ->
  Lexer.advance_while p n self = Lexer.advance_while p m self.
Proof.
  revert m self. induction n as [|n IH]; intros m self Hn Hm.
  - destruct m as [|m]; [reflexivity|]. simpl.
    destruct (Lexer.peek self) as [c|] eqn:Hc; [|reflexivity].
    apply cursor_on_char in Hc as [Hlt _]. lia.
  - simpl. destruct (Lexer.peek self) as [c|] eqn:Hc.
    + pose proof (cursor_on_char _ _ Hc) as [Hlt _].
      destruct m as [|m]; [lia|]. simpl. rewrite Hc.
      destruct (p c); [|reflexivity].
      apply IH; simpl; lia.
    + destruct m as [|m]; [reflexivity|]. simpl. rewrite Hc. reflexivity.
Qed.

(** So [while_peek] satisfies the equation of the source's [while]. *)
Lemma while_peek_unfold p self :
  Lexer.while_peek p self =
  match Lexer.peek self with
  | Some c => if p c then Lexer.while_peek p (Lexer.advance self) else self
  | None => self
  end.
Proof.
  unfold Lexer.while_peek.
  destruct (Lexer.peek self) as [c|] eqn:Hc.
  - pose proof (cursor_on_char _ _ Hc) as [Hlt _].
    destruct (Lexer.length self - Lexer.pos self) as [|n] eqn:Hn; [lia|].
    simpl. rewrite Hc. destruct (p c); [|reflexivity].
    apply advance_while_budget; simpl; lia.
  - destruct (Lexer.length self - Lexer.pos self) as [|n]; simpl; [reflexivity|].
    rewrite Hc. reflexivity.
Qed.

Lemma while_peek_fields p self :
  Lexer.text (Lexer.while_peek p self) = Lexer.text self /\
  Lexer.length (Lexer.while_peek p self) = Lexer.length self /\
  Lexer.pos self <= Lexer.pos (Lexer.while_peek p self).
Proof. apply advance_while_fields. Qed.

Lemma while_peek_moves p self c :
  Lexer.peek self = Some c -> p c = true ->
  Lexer.pos self < Lexer.pos (Lexer.while_peek p self).
Proof.
  intros Hc Hp. rewrite while_peek_unfold, Hc, Hp.
  destruct (while_peek_fields p (Lexer.advance self)) as (_ & _ & H).
  simpl in H. lia.
Qed.

(** When the loop stops, the cursor is at the end or on a character that
    fails the test. *)
Lemma advance_while_stops p n self :
  Lexer.length self - Lexer.pos self <= n ->
  match Lexer.peek (Lexer.advance_while p n self) with
  | Some c => p c = false
  | None => True
  end.
Proof.
  revert self. induction n as [|n IH]; intros self Hn; simpl.
  - destruct (Lexer.peek self) as [c|] eqn:Hc; [|exact I].
    apply cursor_on_char in Hc as [Hlt _]. lia.
  - destruct (Lexer.peek self) as [c|] eqn:Hc.
    + destruct (p c) eqn:Hp.
      * apply IH. apply cursor_on_char in Hc as [Hlt _]. simpl. lia.
      * rewrite Hc. exact Hp.
    + rewrite Hc. exact I.
Qed.

Lemma while_peek_stops p self :
  match Lexer.peek (Lexer.while_peek p self) with
  | Some c => p c = false
  | None => True
  end.
Proof. apply advance_while_stops. lia. Qed.

(** *** One call of [next_token] *)

Lemma next_token_scanned self :
  scanned (Lexer.skip_whitespace self)
    (fst (Lexer.next_token self)) (snd (Lexer.next_token self)).
Proof.
  unfold Lexer.next_token, bind, modify, gets, ret, raise, Lexer.error, Lexer.text_at.
  cbn beta iota.
  set (s1 := Lexer.skip_whitespace self).
  destruct (Lexer.peek s1) as [c|] eqn:Hc; [|apply scanned_eof; exact Hc].
  pose proof (cursor_on_char _ _ Hc) as [Hlt Hget].
  destruct (c =? "+")%char eqn:E1.
  { apply Ascii.eqb_eq in E1. subst c. apply (scanned_punctuation s1 "+"%char Hc). reflexivity. }
  destruct (c =? "-")%char eqn:E2.
  { apply Ascii.eqb_eq in E2. subst c. apply (scanned_punctuation s1 "-"%char Hc). reflexivity. }
  destruct (c =? "*")%char eqn:E3.
  { apply Ascii.eqb_eq in E3. subst c. apply (scanned_punctuation s1 "*"%char Hc). reflexivity. }
  destruct (c =? "(")%char eqn:E4.
  { apply Ascii.eqb_eq in E4. subst c. apply (scanned_punctuation s1 "("%char Hc). reflexivity. }
  destruct (c =? ")")%char eqn:E5.
  { apply Ascii.eqb_eq in E5. subst c. apply (scanned_punctuation s1 ")"%char Hc). reflexivity. }
  destruct (c =? "=")%char eqn:E6.
  { apply Ascii.eqb_eq in E6. subst c. apply (scanned_punctuation s1 "="%char Hc). reflexivity. }
  destruct (c =? ";")%char eqn:E7.
  { apply Ascii.eqb_eq in E7. subst c. apply (scanned_punctuation s1 ";"%char Hc). reflexivity. }
  assert (Hp : punctuation c = false).
  { unfold punctuation. simpl. rewrite E1, E2, E3, E4, E5, E6, E7. reflexivity. }
  fold (identifier_start c).
  destruct (identifier_start c) eqn:Hid.
  { cbn [fst snd]. rewrite (proj1 (while_peek_fields _ s1)).
    exact (scanned_identifier s1 c Hc Hp Hid). }
  destruct (Py.isdigit c) eqn:Hd.
  - cbn [Lexer.text Lexer.advance Lexer.pos]. rewrite Hget.
    destruct (c =? "0")%char eqn:E0; cbn [negb fst snd].
    + apply Ascii.eqb_eq in E0. subst c.
      destruct (Lexer.peek (Lexer.advance s1)) as [d|] eqn:Hnext.
      * destruct (Py.isdigit d) eqn:Hdd.
        -- apply (scanned_leading_zero s1 d Hc Hnext Hdd).
        -- apply (scanned_zero s1 Hc). rewrite Hnext. exact Hdd.
      * apply (scanned_zero s1 Hc). rewrite Hnext. exact I.
    + rewrite (proj1 (while_peek_fields _ (Lexer.advance s1))).
      apply (scanned_number s1 c Hc Hp Hid Hd).
      intros ->. discriminate.
  - apply (scanned_unexpected s1 c Hc Hp Hid Hd).
Qed.

Lemma next_token_inv self o self' :
  Lexer.next_token self = (o, self') -> scanned (Lexer.skip_whitespace self) o self'.
Proof.
  intros H. pose proof (next_token_scanned self) as Hs.
  rewrite H in Hs. exact Hs.
Qed.

Lemma scanned_fields s1 o s2 :
  scanned s1 o s2 ->
  Lexer.text s2 = Lexer.text s1 /\ Lexer.length s2 = Lexer.length s1 /\
  Lexer.pos s1 <= Lexer.pos s2.
Proof.
  intros H. destruct H; simpl; try (repeat split; (reflexivity || lia)).
  - apply while_peek_fields.
  - destruct (while_peek_fields Py.isdigit (Lexer.advance s1)) as (Ht & Hl & Hp).
    simpl in *. repeat split; [assumption | assumption | lia].
Qed.

Lemma next_token_fields self o self' :
  Lexer.next_token self = (o, self') ->
  Lexer.text self' = Lexer.text self /\ Lexer.length self' = Lexer.length self /\
  Lexer.pos self <= Lexer.pos self'.
Proof.
  intros H. apply next_token_inv, scanned_fields in H as (Ht & Hl & Hp).
  destruct (while_peek_fields Py.isspace self) as (Ht' & Hl' & Hp').
  unfold Lexer.skip_whitespace in *.
  repeat split; [congruence | congruence | lia].
Qed.

Lemma identifier_start_char c : identifier_start c = true -> identifier_char c = true.
Proof.
  unfold identifier_start, identifier_char, Py.isalnum.
  destruct (Py.isalpha c); simpl; [reflexivity|].
  intros ->. apply orb_true_r.
Qed.

(** The end-of-input token is the only one of type ['EOF']. *)
Lemma scanned_EOF s1 token s2 :
  scanned s1 (Return token) s2 -> ttype token = "EOF" -> token = mkToken "EOF" "".
Proof.
  intros H. inversion H; subst; simpl; intros E; try discriminate; reflexivity.
Qed.

(** Any other token moves the cursor. *)
Lemma scanned_progress s1 token s2 :
  scanned s1 (Return token) s2 -> ttype token <> "EOF" ->
  Lexer.pos s1 < Lexer.length s1 /\ Lexer.pos s1 < Lexer.pos s2.
Proof.
  intros H. inversion H; subst; simpl; intros E;
    try match goal with Hc : Lexer.peek _ = Some _ |- _ =>
          pose proof (cursor_on_char _ _ Hc) as [Hlt _] end.
  - congruence.
  - lia.
  - split; [assumption|].
    eapply while_peek_moves; [eassumption|]. apply identifier_start_char. assumption.
  - split; [assumption|].
    destruct (while_peek_fields Py.isdigit (Lexer.advance s1)) as (_ & _ & Hp).
    simpl in Hp. lia.
  - lia.
Qed.

Lemma scanned_sign_token_ok s1 token s2 :
  scanned s1 (Return token) s2 -> sign_token_ok token.
Proof.
  intros H. inversion H; subst; unfold sign_token_ok; simpl;
    try reflexivity; intros [E|E]; discriminate.
Qed.

(** *** The [tokenize] loop *)

Lemma tokenize_loop_unfold fuel acc self :
  Lexer.tokenize_loop (S fuel) acc self =
  match Lexer.next_token self with
  | (Return token, s') =>
      if String.eqb (ttype token) "EOF" then (Return (acc ++ [token]), s')
      else Lexer.tokenize_loop fuel (acc ++ [token]) s'
  | (Raise e, s') => (Raise e, s')
  | (OutOfFuel, s') => (OutOfFuel, s')
  end.
Proof.
  simpl. rewrite bind_unfold.
  destruct (Lexer.next_token self) as [[token|e|] s']; try reflexivity.
  unfold Lexer.EOF. destruct (String.eqb (ttype token) "EOF"); reflexivity.
Qed.

Lemma tokenize_loop_Return fuel acc self tokens self' :
  Lexer.tokenize_loop fuel acc self = (Return tokens, self') ->
  exists front,
    tokens = acc ++ front ++ [mkToken "EOF" ""] /\
    Forall (fun t => ttype t <> "EOF") front /\
    Forall sign_token_ok front.
Proof.
  revert acc self. induction fuel as [|fuel IH]; intros acc self H.
  - discriminate.
  - rewrite tokenize_loop_unfold in H.
    destruct (Lexer.next_token self) as [[token|e|] s'] eqn:Hn; try discriminate.
    apply next_token_inv in Hn.
    destruct (String.eqb (ttype token) "EOF") eqn:E.
    + apply String.eqb_eq in E. apply (scanned_EOF _ _ _ Hn) in E. subst token.
      inversion H; subst. exists []. simpl. auto.
    + apply String.eqb_neq in E.
      apply IH in H as (front & -> & Hfront & Hok).
      exists (token :: front). rewrite <- app_assoc. simpl.
      split; [reflexivity|].
      split; constructor; try assumption.
      eapply scanned_sign_token_ok; eassumption.
Qed.

Lemma tokenize_loop_enough fuel acc self :
  Lexer.length self - Lexer.pos self < fuel ->
  fst (Lexer.tokenize_loop fuel acc self) <> OutOfFuel.
Proof.
  revert acc self. induction fuel as [|fuel IH]; intros acc self Hf.
  - lia.
  - rewrite tokenize_loop_unfold.
    destruct (Lexer.next_token self) as [[token|e|] s'] eqn:Hn.
    + destruct (String.eqb (ttype token) "EOF") eqn:E; [discriminate|].
      apply String.eqb_neq in E.
      pose proof (next_token_inv _ _ _ Hn) as Hs.
      pose proof (next_token_fields _ _ _ Hn) as (_ & Hl & _).
      destruct (scanned_progress _ _ _ Hs E) as [Hlt Hmove].
      destruct (while_peek_fields Py.isspace self) as (_ & Hl' & Hp').
      unfold Lexer.skip_whitespace in *.
      apply IH. lia.
    + discriminate.
    + apply next_token_inv in Hn. inversion Hn.
Qed.

(** [tokenize] always returns or raises. *)
Lemma tokenize_returns_or_raises text :
  fst (Lexer.tokenize (Lexer.init text)) <> OutOfFuel.
Proof. unfold Lexer.tokenize. apply tokenize_loop_enough. lia. Qed.

(** What [tokenize] raises is what [next_token] raised, in the state where
    it raised it. *)
Lemma tokenize_loop_Raise fuel acc self e self' :
  Lexer.tokenize_loop fuel acc self = (Raise e, self') ->
  Lexer.text self' = Lexer.text self /\
  exists s1,
    Lexer.text s1 = Lexer.text self /\
    match Lexer.peek s1 with Some c => Py.isspace c = false | None => True end /\
    scanned s1 (Raise e) self'.
Proof.
  revert acc self. induction fuel as [|fuel IH]; intros acc self H.
  - discriminate.
  - rewrite tokenize_loop_unfold in H.
    destruct (Lexer.next_token self) as [[token|e0|] s'] eqn:Hn; try discriminate.
    + pose proof (next_token_fields _ _ _ Hn) as (Ht & _ & _).
      destruct (String.eqb (ttype token) "EOF"); [discriminate|].
      apply IH in H as (Ht' & s1 & Hs1 & Hsp & Hsc).
      split; [congruence|]. exists s1. split; [congruence|]. auto.
    + inversion H; subst.
      pose proof (next_token_fields _ _ _ Hn) as (Ht & _ & _).
      split; [assumption|].
      exists (Lexer.skip_whitespace self).
      split; [apply while_peek_fields|].
      split; [apply while_peek_stops|].
      apply next_token_inv. assumption.
Qed.

End LexerFacts.


(** ** The parser *)

Module ParserFacts.

Ltac inv_step :=
  match goal with
  | H : bind _ _ _ = (Return _, _) |- _ =>
      let a := fresh "a" in let s := fresh "s" in let Ha := fresh "H" in
      apply bind_Return in H as (a & s & Ha & H)
  | H : ret _ _ = (Return _, _) |- _ => inversion H; subst; clear H
  | H : gets _ _ = (Return _, _) |- _ => inversion H; subst; clear H
  | H : modify _ _ = (Return _, _) |- _ => inversion H; subst; clear H
  | H : Parser.error _ _ = (Return _, _) |- _ => discriminate H
  | H : raise _ _ = (Return _, _) |- _ => discriminate H
  | H : out_of_fuel _ = (Return _, _) |- _ => discriminate H
  end.

Lemma exp_unfold fuel :
  Parser.exp (S fuel) = (node <- Parser.term fuel ;; Parser.exp_loop fuel node).
Proof. reflexivity. Qed.

Lemma exp_loop_unfold fuel node :
  Parser.exp_loop (S fuel) node =
  (token <- gets Parser.peek ;;
   match token with
   | Some token =>
       if String.eqb (ttype token) "+" || String.eqb (ttype token) "-" then
         op_token <- Parser.consume None ;;
         right <- Parser.term fuel ;;
         Parser.exp_loop fuel (PyTuple [PyStr (value op_token); node; right])
       else ret node
   | None => ret node
   end).
Proof. reflexivity. Qed.

Lemma term_unfold fuel :
  Parser.term (S fuel) = (node <- Parser.fact fuel ;; Parser.term_loop fuel node).
Proof. reflexivity. Qed.

Lemma term_loop_unfold fuel node :
  Parser.term_loop (S fuel) node =
  (token <- gets Parser.peek ;;
   match token with
   | Some token =>
       if String.eqb (ttype token) "*" then
         Parser.consume (Some "*") ;;
         right <- Parser.fact fuel ;;
         Parser.term_loop fuel (PyTuple [PyStr "*"; node; right])
       else ret node
   | None => ret node
   end).
Proof. reflexivity. Qed.

Lemma fact_unfold fuel :
  Parser.fact (S fuel) =
  (token <- gets Parser.peek ;;
   match token with
   | None => raise AttributeError
   | Some token =>
       if String.eqb (ttype token) "(" then
         Parser.consume (Some "(") ;;
         node <- Parser.exp fuel ;;
         Parser.consume (Some ")") ;;
         ret node
       else if String.eqb (ttype token) "+" then
         Parser.consume (Some "+") ;;
         node <- Parser.fact fuel ;;
         ret (PyTuple [PyStr "+"; node])
       else if String.eqb (ttype token) "-" then
         Parser.consume (Some "-") ;;
         node <- Parser.fact fuel ;;
         ret (PyTuple [PyStr "-"; node])
       else if String.eqb (ttype token) "LITERAL" then
         literal <- Parser.consume (Some "LITERAL") ;;
         n <- lift (Py.int (value literal)) ;;
         ret (PyTuple [PyStr "lit"; PyInt n])
       else if String.eqb (ttype token) "IDENTIFIER" then
         name <- Parser.consume (Some "IDENTIFIER") ;;
         ret (PyTuple [PyStr "var"; PyStr (value name)])
       else Parser.error "Invalid factor"
   end).
Proof. reflexivity. Qed.

Lemma cursor_on_token self token :
  Parser.peek self = Some token ->
  Parser.pos self < List.length (Parser.tokens self) /\
  Parser.tokens self !! Parser.pos self = Some token.
Proof.
  unfold Parser.peek.
  destruct (Parser.pos self <? List.length (Parser.tokens self)) eqn:E; [|discriminate].
  apply Nat.ltb_lt in E. auto.
Qed.

Lemma consume_Return expected self token self' :
  Parser.consume expected self = (Return token, self') ->
  Parser.peek self = Some token /\ self' = Parser.step self /\
  match expected with Some ttype' => ttype token = ttype' | None => True end.
Proof.
  unfold Parser.consume. intros H. inv_step. inv_step.
  destruct (Parser.peek s) as [token0|]; [|discriminate].
  destruct expected as [ttype'|].
  - destruct (String.eqb (ttype token0) ttype') eqn:E; simpl in H; [|discriminate].
    apply String.eqb_eq in E. repeat inv_step. auto.
  - repeat inv_step. auto.
Qed.

Lemma consume_sound expected self token self' :
  Forall sign_token_ok (Parser.tokens self) ->
  Parser.consume expected self = (Return token, self') ->
  sign_token_ok token /\ Parser.tokens self' = Parser.tokens self /\
  Forall sign_token_ok (Parser.tokens self').
Proof.
  intros Hall H. apply consume_Return in H as (Hp & -> & _).
  apply cursor_on_token in Hp as [_ Hl]. simpl.
  split; [|auto].
  rewrite Forall_forall in Hall. apply Hall.
  eapply list_elem_of_lookup_2. eassumption.
Qed.

Lemma grammar_sound fuel :
  sound (Parser.exp fuel) /\
  (forall acc, well_formed acc -> sound (Parser.exp_loop fuel acc)) /\
  sound (Parser.term fuel) /\
  (forall acc, well_formed acc -> sound (Parser.term_loop fuel acc)) /\
  sound (Parser.fact fuel).
Proof.
  induction fuel as [|fuel (IHe & IHel & IHt & IHtl & IHf)].
  - repeat split; intros; discriminate.
  - split; [|split; [|split; [|split]]].
    + intros self node self' Hall H. rewrite exp_unfold in H. inv_step.
      apply IHt in H0 as [Hwf Ht]; [|assumption].
      apply (IHel _ Hwf) in H as [Hwf' Ht']; [|congruence].
      split; [assumption | congruence].
    + intros acc Hacc self node self' Hall H. rewrite exp_loop_unfold in H.
      inv_step. inv_step.
      destruct (Parser.peek s) as [token|] eqn:Hp; [|inv_step; auto].
      destruct (String.eqb (ttype token) "+" || String.eqb (ttype token) "-") eqn:E;
        [|inv_step; auto].
      inv_step. inv_step.
      pose proof (consume_Return _ _ _ _ H0) as (Hp' & _ & _).
      rewrite Hp in Hp'. inversion Hp'; subst a.
      apply (consume_sound _ _ _ _ Hall) in H0 as (Hok & Ht0 & Hall0).
      apply IHt in H1 as [Hwf Ht1]; [|assumption].
      assert (Hop : value token = "+" \/ value token = "-").
      { apply orb_true_iff in E as [E|E]; apply String.eqb_eq in E;
          rewrite (Hok (ltac:(auto))); auto. }
      apply IHel in H as [Hwf' Ht']; [| |congruence].
      * split; [assumption | congruence].
      * apply wf_binary; [tauto | assumption | assumption].
    + intros self node self' Hall H. rewrite term_unfold in H. inv_step.
      apply IHf in H0 as [Hwf Ht]; [|assumption].
      apply (IHtl _ Hwf) in H as [Hwf' Ht']; [|congruence].
      split; [assumption | congruence].
    + intros acc Hacc self node self' Hall H. rewrite term_loop_unfold in H.
      inv_step. inv_step.
      destruct (Parser.peek s) as [token|] eqn:Hp; [|inv_step; auto].
      destruct (String.eqb (ttype token) "*") eqn:E; [|inv_step; auto].
      inv_step. inv_step.
      apply (consume_sound _ _ _ _ Hall) in H0 as (Hok & Ht0 & Hall0).
      apply IHf in H1 as [Hwf Ht1]; [|assumption].
      apply IHtl in H as [Hwf' Ht']; [| |congruence].
      * split; [assumption | congruence].
      * apply wf_binary; [tauto | assumption | assumption].
    + intros self node self' Hall H. rewrite fact_unfold in H.
      inv_step. inv_step.
      destruct (Parser.peek s) as [token|] eqn:Hp; [|discriminate].
      destruct (String.eqb (ttype token) "(").
      { inv_step. inv_step. inv_step. inv_step.
        apply (consume_sound _ _ _ _ Hall) in H0 as (_ & Ht0 & Hall0).
        apply IHe in H1 as [Hwf Ht1]; [|assumption].
        apply consume_sound in H2 as (_ & Ht2 & _); [|congruence].
        split; [assumption | congruence]. }
      destruct (String.eqb (ttype token) "+").
      { inv_step. inv_step. inv_step.
        apply (consume_sound _ _ _ _ Hall) in H0 as (_ & Ht0 & Hall0).
        apply IHf in H1 as [Hwf Ht1]; [|assumption].
        split; [apply wf_unary; auto | congruence]. }
      destruct (String.eqb (ttype token) "-").
      { inv_step. inv_step. inv_step.
        apply (consume_sound _ _ _ _ Hall) in H0 as (_ & Ht0 & Hall0).
        apply IHf in H1 as [Hwf Ht1]; [|assumption].
        split; [apply wf_unary; auto | congruence]. }
      destruct (String.eqb (ttype token) "LITERAL").
      { inv_step. inv_step. inv_step.
        apply (consume_sound _ _ _ _ Hall) in H0 as (_ & Ht0 & Hall0).
        unfold lift in H1. inversion H1; subst.
        split; [apply wf_lit | assumption]. }
      destruct (String.eqb (ttype token) "IDENTIFIER").
      { inv_step. inv_step.
        apply (consume_sound _ _ _ _ Hall) in H0 as (_ & Ht0 & Hall0).
        split; [apply wf_var | assumption]. }
      discriminate.
Qed.

Lemma assignment_sound fuel self a self' :
  Forall sign_token_ok (Parser.tokens self) ->
  Parser.assignment fuel self = (Return a, self') ->
  well_formed a.2 /\ Parser.tokens self' = Parser.tokens self.
Proof.
  intros Hall H. unfold Parser.assignment in H. repeat inv_step.
  apply (consume_sound _ _ _ _ Hall) in H0 as (_ & Ht0 & Hall0).
  apply consume_sound in H1 as (_ & Ht1 & Hall1); [|assumption].
  destruct (grammar_sound fuel) as (He & _).
  apply He in H2 as [Hwf Ht2]; [|assumption].
  apply consume_sound in H3 as (_ & Ht3 & _); [|congruence].
  simpl. split; [assumption | congruence].
Qed.

Lemma parse_loop_sound fuel acc self assignments self' :
  Forall sign_token_ok (Parser.tokens self) ->
  Forall (fun a : assign => well_formed a.2) acc ->
  Parser.parse_loop fuel acc self = (Return assignments, self') ->
  Forall (fun a : assign => well_formed a.2) assignments.
Proof.
  revert acc self. induction fuel as [|fuel IH]; intros acc self Hall Hacc H.
  - discriminate.
  - simpl in H. inv_step. inv_step.
    destruct (Parser.peek s) as [token|]; [|inv_step; assumption].
    destruct (String.eqb (ttype token) "EOF"); [inv_step; assumption|].
    inv_step.
    apply (assignment_sound _ _ _ _ Hall) in H0 as [Hwf Ht].
    apply IH in H; [assumption | congruence |].
    apply Forall_app. split; [assumption|]. constructor; [assumption | constructor].
Qed.

Lemma parse_sound tokens assignments self' :
  Forall sign_token_ok tokens ->
  Parser.parse (Parser.init tokens) = (Return assignments, self') ->
  Forall (fun a : assign => well_formed a.2) assignments.
Proof.
  intros Hall H. unfold Parser.parse in H.
  eapply parse_loop_sound; [| |exact H]; [exact Hall | constructor].
Qed.

End ParserFacts.

(** ** The parser's budget *)

Module ParserBudget.














End ParserBudget.

(** ** Chains of operators of one level *)

Module ChainFacts.

Lemma peek_remaining self : Parser.peek self = head (remaining self).
Proof.
  unfold Parser.peek, remaining.
  rewrite head_lookup, lookup_drop, Nat.add_0_r.
  destruct (Parser.pos self <? List.length (Parser.tokens self)) eqn:E; [reflexivity|].
  apply Nat.ltb_ge in E. symmetry. apply lookup_ge_None. exact E.
Qed.

Lemma remaining_skip n self : remaining (skip n self) = drop n (remaining self).
Proof. unfold remaining, skip. simpl. rewrite drop_drop. reflexivity. Qed.

Lemma skip_skip n m self : skip n (skip m self) = skip (m + n) self.
Proof. unfold skip. simpl. f_equal. lia. Qed.

Lemma consume_head expected self token r :
  remaining self = token :: r ->
  match expected with Some ttype' => ttype token = ttype' | None => True end ->
  Parser.consume expected self = (Return token, skip 1 self).
Proof.
  intros Hr He. unfold Parser.consume, bind, gets.
  rewrite peek_remaining, Hr. simpl.
  destruct expected as [ttype'|]; [|reflexivity].
  rewrite He, String.eqb_refl. reflexivity.
Qed.

Lemma fact_identifier fuel self name r :
  remaining self = identifier name :: r ->
  Parser.fact (S fuel) self = (Return (var name), skip 1 self).
Proof.
  intros Hr. rewrite ParserFacts.fact_unfold. unfold bind at 1, gets.
  rewrite peek_remaining, Hr. simpl.
  unfold bind. rewrite (consume_head _ _ _ _ Hr) by reflexivity. reflexivity.
Qed.

Lemma term_loop_stops fuel acc self stop r :
  remaining self = stop :: r -> ttype stop <> "*" ->
  Parser.term_loop (S fuel) acc self = (Return acc, self).
Proof.
  intros Hr Hs. rewrite ParserFacts.term_loop_unfold. unfold bind, gets.
  rewrite peek_remaining, Hr. simpl.
  apply String.eqb_neq in Hs. rewrite Hs. reflexivity.
Qed.

Lemma exp_loop_stops fuel acc self stop r :
  remaining self = stop :: r -> ttype stop <> "+" -> ttype stop <> "-" ->
  Parser.exp_loop (S fuel) acc self = (Return acc, self).
Proof.
  intros Hr Hp Hm. rewrite ParserFacts.exp_loop_unfold. unfold bind, gets.
  rewrite peek_remaining, Hr. simpl.
  apply String.eqb_neq in Hp, Hm. rewrite Hp, Hm. reflexivity.
Qed.

(** After a name comes an operator of the chain or the token that ends
    it. *)
Lemma chain_head chain stop more :
  exists token r,
    chain_tokens chain ++ stop :: more = token :: r /\
    (token = stop \/ exists step, step ∈ chain /\ token = operator step.1).
Proof.
  destruct chain as [|step chain]; simpl.
  - exists stop, more. auto.
  - eexists _, _. split; [reflexivity|]. right. exists step. split; [left | reflexivity].
Qed.

Lemma exp_loop_chain chain :
  forall fuel acc self stop more,
    Forall additive chain ->
    remaining self = chain_tokens chain ++ stop :: more ->
    ttype stop <> "+" -> ttype stop <> "-" -> ttype stop <> "*" ->
    List.length chain + 2 <= fuel ->
    Parser.exp_loop fuel acc self
    = (Return (fold_chain acc chain), skip (2 * List.length chain) self).
Proof.
  induction chain as [|[op name] chain IH];
    intros fuel acc self stop more Hadd Hr Hp Hm Ht Hf.
  - destruct fuel as [|fuel]; [simpl in Hf; lia|].
    simpl in Hr. rewrite (exp_loop_stops _ _ _ _ _ Hr Hp Hm).
    unfold skip. simpl. rewrite Nat.add_0_r. destruct self; reflexivity.
  - destruct fuel as [|[|[|fuel]]]; try (simpl in Hf; lia).
    apply Forall_cons in Hadd as [Hop Hadd]. unfold additive in Hop. simpl in Hop, Hr.
    rewrite ParserFacts.exp_loop_unfold. unfold bind at 1, gets.
    rewrite peek_remaining, Hr. cbn [head operator ttype].
    assert (E : String.eqb op "+" || String.eqb op "-" = true).
    { destruct Hop as [->| ->]; reflexivity. }
    rewrite E. unfold bind at 1.
    rewrite (consume_head None _ _ _ Hr I). cbn [operator value].
    assert (Hr1 : remaining (skip 1 self)
                  = identifier name :: chain_tokens chain ++ stop :: more).
    { rewrite remaining_skip, Hr. reflexivity. }
    assert (Hr2 : remaining (skip 2 self) = chain_tokens chain ++ stop :: more).
    { rewrite remaining_skip, Hr. reflexivity. }
    unfold bind at 1. rewrite ParserFacts.term_unfold. unfold bind at 1.
    rewrite (fact_identifier _ _ _ _ Hr1). rewrite skip_skip. simpl Nat.add.
    destruct (chain_head chain stop more) as (next & r & Hnext & Hwhich).
    rewrite (term_loop_stops _ _ _ next r).
    + rewrite (IH _ _ _ stop more Hadd Hr2 Hp Hm Ht) by (simpl in Hf |- *; lia).
      rewrite skip_skip. simpl. f_equal. f_equal. lia.
    + rewrite Hr2. exact Hnext.
    + destruct Hwhich as [->|(step & Hin & ->)]; [exact Ht|].
      rewrite Forall_forall in Hadd. destruct (Hadd _ Hin) as [E'|E'];
        simpl; rewrite E'; discriminate.
Qed.

Lemma term_loop_chain chain :
  forall fuel acc self stop more,
    Forall multiplicative chain ->
    remaining self = chain_tokens chain ++ stop :: more ->
    ttype stop <> "*" ->
    List.length chain + 1 <= fuel ->
    Parser.term_loop fuel acc self
    = (Return (fold_chain acc chain), skip (2 * List.length chain) self).
Proof.
  induction chain as [|[op name] chain IH];
    intros fuel acc self stop more Hmul Hr Ht Hf.
  - destruct fuel as [|fuel]; [simpl in Hf; lia|].
    simpl in Hr. rewrite (term_loop_stops _ _ _ _ _ Hr Ht).
    unfold skip. simpl. rewrite Nat.add_0_r. destruct self; reflexivity.
  - destruct fuel as [|[|fuel]]; try (simpl in Hf; lia).
    apply Forall_cons in Hmul as [Hop Hmul]. unfold multiplicative in Hop.
    simpl in Hop, Hr. subst op.
    rewrite ParserFacts.term_loop_unfold. unfold bind at 1, gets.
    rewrite peek_remaining, Hr. cbn [head operator ttype String.eqb Ascii.eqb Bool.eqb].
    unfold bind at 1.
    rewrite (consume_head (Some "*") _ _ _ Hr eq_refl).
    assert (Hr1 : remaining (skip 1 self)
                  = identifier name :: chain_tokens chain ++ stop :: more).
    { rewrite remaining_skip, Hr. reflexivity. }
    assert (Hr2 : remaining (skip 2 self) = chain_tokens chain ++ stop :: more).
    { rewrite remaining_skip, Hr. reflexivity. }
    unfold bind at 1.
    rewrite (fact_identifier _ _ _ _ Hr1). rewrite skip_skip. simpl Nat.add.
    rewrite (IH _ _ _ stop more Hmul Hr2 Ht) by (simpl in Hf |- *; lia).
    rewrite skip_skip. simpl. f_equal. f_equal. lia.
Qed.

Lemma chain_tokens_length chain : List.length (chain_tokens chain) = 2 * List.length chain.
Proof. induction chain as [|step chain IH]; simpl; [reflexivity | lia]. Qed.

Lemma remaining_after_chain n self chain stop more :
  remaining self = chain_tokens chain ++ stop :: more ->
  n = 2 * List.length chain ->
  remaining (skip n self) = stop :: more.
Proof.
  intros Hr ->. rewrite remaining_skip, Hr, <- chain_tokens_length.
  rewrite drop_app_length. reflexivity.
Qed.

(** [exp] on a chain of names joined by operators of one level. *)
Lemma exp_chain fuel self a0 chain stop more :
  Forall additive chain \/ Forall multiplicative chain ->
  remaining self = identifier a0 :: chain_tokens chain ++ stop :: more ->
  ttype stop <> "+" -> ttype stop <> "-" -> ttype stop <> "*" ->
  List.length chain + 4 <= fuel ->
  Parser.exp fuel self
  = (Return (fold_chain (var a0) chain), skip (1 + 2 * List.length chain) self).
Proof.
  intros Hlevel Hr Hp Hm Ht Hf.
  destruct fuel as [|[|[|fuel]]]; try lia.
  assert (Hr1 : remaining (skip 1 self) = chain_tokens chain ++ stop :: more).
  { rewrite remaining_skip, Hr. reflexivity. }
  rewrite ParserFacts.exp_unfold. unfold bind at 1.
  rewrite ParserFacts.term_unfold. unfold bind at 1.
  rewrite (fact_identifier _ _ _ _ Hr).
  destruct Hlevel as [Hadd|Hmul].
  - destruct (chain_head chain stop more) as (next & r & Hnext & Hwhich).
    rewrite (term_loop_stops _ _ _ next r).
    + rewrite (exp_loop_chain chain _ _ _ stop more Hadd Hr1 Hp Hm Ht) by lia.
      rewrite skip_skip. reflexivity.
    + rewrite Hr1. exact Hnext.
    + destruct Hwhich as [->|(step & Hin & ->)]; [exact Ht|].
      rewrite Forall_forall in Hadd. destruct (Hadd _ Hin) as [E'|E'];
        simpl; rewrite E'; discriminate.
  - rewrite (term_loop_chain chain _ _ _ stop more Hmul Hr1 Ht) by lia.
    rewrite skip_skip.
    rewrite (exp_loop_stops _ _ _ stop more); [reflexivity| |assumption|assumption].
    rewrite <- skip_skip. apply (remaining_after_chain _ _ chain); [exact Hr1 | reflexivity].
Qed.

(** [parse] on the statement [x = a0 op1 a1 ... opn an ;]. *)
Lemma parse_chain_statement x a0 chain :
  Forall additive chain \/ Forall multiplicative chain ->
  fst (Parser.parse (Parser.init (chain_statement x a0 chain)))
  = Return [("assign", x, fold_chain (var a0) chain)].
Proof.
  intros Hlevel. unfold Parser.parse.
  set (self := Parser.init (chain_statement x a0 chain)).
  assert (Hlen : List.length (Parser.tokens self) = 2 * List.length chain + 5).
  { simpl. rewrite length_app, chain_tokens_length. simpl. lia. }
  rewrite Hlen. simpl Parser.pos. rewrite Nat.sub_0_r.
  remember (3 * (2 * List.length chain + 5) + 3) as fuel eqn:Hfuel.
  destruct fuel as [|[|fuel]]; try lia.
  assert (Hr : remaining self
               = identifier x :: operator "=" :: identifier a0
                 :: chain_tokens chain ++ operator ";" :: [mkToken "EOF" ""])
    by reflexivity.
  assert (Hr2 : remaining (skip 2 self)
                = identifier a0 :: chain_tokens chain ++ operator ";" :: [mkToken "EOF" ""]).
  { rewrite remaining_skip, Hr. reflexivity. }
  assert (Hr3 : remaining (skip (2 + (1 + 2 * List.length chain)) self)
                = operator ";" :: [mkToken "EOF" ""]).
  { rewrite <- skip_skip, remaining_skip, Hr2.
    replace (1 + 2 * List.length chain) with (S (List.length (chain_tokens chain)))
      by (rewrite chain_tokens_length; lia).
    cbn [drop skipn]. rewrite drop_app_length. reflexivity. }
  assert (Hr4 : remaining (skip (2 + (1 + 2 * List.length chain) + 1) self)
                = [mkToken "EOF" ""]).
  { rewrite <- skip_skip, remaining_skip, Hr3. reflexivity. }
  cbn [Parser.parse_loop]. unfold bind at 1, gets.
  rewrite peek_remaining, Hr. cbn [head identifier ttype].
  change (String.eqb "IDENTIFIER" "EOF") with false. cbn iota.
  unfold bind at 1. unfold Parser.assignment.
  unfold bind at 1. rewrite (consume_head (Some "IDENTIFIER") _ _ _ Hr eq_refl).
  unfold bind at 1.
  rewrite (consume_head (Some "=") (skip 1 self) (operator "=")
             (identifier a0 :: chain_tokens chain ++ operator ";" :: [mkToken "EOF" ""]));
    [|rewrite remaining_skip, Hr; reflexivity|reflexivity].
  rewrite skip_skip. simpl Nat.add.
  unfold bind at 1.
  rewrite (exp_chain _ _ a0 chain (operator ";") [mkToken "EOF" ""] Hlevel Hr2)
    by (simpl; (discriminate || lia)).
  rewrite skip_skip.
  unfold bind at 1. rewrite (consume_head (Some ";") _ _ _ Hr3 eq_refl).
  rewrite skip_skip. unfold ret at 1. cbn [identifier value].
  destruct fuel as [|fuel]; [lia|].
  cbn [Parser.parse_loop]. unfold bind, gets.
  rewrite peek_remaining, Hr4. reflexivity.
Qed.

End ChainFacts.

(** ** The evaluator *)

Module InterpreterFacts.

Lemma neg_Raise a e : Py.neg a = Raise e -> e = TypeError.
Proof. destruct a; simpl; intros H; inversion H; reflexivity. Qed.

Lemma add_Raise a b e : Py.add a b = Raise e -> e = TypeError.
Proof. destruct a, b; simpl; intros H; inversion H; reflexivity. Qed.

Lemma sub_Raise a b e : Py.sub a b = Raise e -> e = TypeError.
Proof. destruct a, b; simpl; intros H; inversion H; reflexivity. Qed.

Lemma mul_Raise a b e : Py.mul a b = Raise e -> e = TypeError.
Proof. destruct a, b; simpl; intros H; inversion H; reflexivity. Qed.

Lemma TypeError_not_defensive : ~ defensive_error TypeError.
Proof. intros [H|H]; discriminate. Qed.

Lemma eval_exp_lit self n :
  Interpreter.eval_exp self (PyTuple [PyStr "lit"; PyInt n]) = Return (PyInt n).
Proof. reflexivity. Qed.

Lemma eval_exp_var self name :
  Interpreter.eval_exp self (PyTuple [PyStr "var"; PyStr name]) =
  match Interpreter.vars self !! name with
  | None => Raise (InterpreterError ("Uninitialized variable: " +:+ name))
  | Some v => Return v
  end.
Proof. reflexivity. Qed.

Lemma eval_exp_unary_plus self e :
  Interpreter.eval_exp self (PyTuple [PyStr "+"; e]) = Interpreter.eval_exp self e.
Proof. simpl. destruct (Interpreter.eval_exp self e); reflexivity. Qed.

Lemma eval_exp_unary_minus self e :
  Interpreter.eval_exp self (PyTuple [PyStr "-"; e]) =
  then_ (Interpreter.eval_exp self e) Py.neg.
Proof. reflexivity. Qed.

Lemma eval_exp_binary self op l r :
  op = "+" \/ op = "-" \/ op = "*" ->
  Interpreter.eval_exp self (PyTuple [PyStr op; l; r]) =
  then_ (Interpreter.eval_exp self l) (fun a =>
  then_ (Interpreter.eval_exp self r) (fun b =>
  if String.eqb op "+" then Py.add a b
  else if String.eqb op "-" then Py.sub a b
  else Py.mul a b)).
Proof. intros [->|[->| ->]]; reflexivity. Qed.

(** A well-formed node never makes [eval_exp] raise a defensive error. *)
Lemma eval_exp_well_formed self node e :
  well_formed node -> Interpreter.eval_exp self node = Raise e -> ~ defensive_error e.
Proof.
  intros Hwf. revert e. induction Hwf as [n|name|op x Hop Hx IHx|op l r Hop Hl IHl Hr IHr];
    intros e H.
  - rewrite eval_exp_lit in H. discriminate.
  - rewrite eval_exp_var in H.
    destruct (Interpreter.vars self !! name); [discriminate|].
    inversion H; subst. intros [D|D]; inversion D.
  - destruct Hop as [->| ->].
    + rewrite eval_exp_unary_plus in H. auto.
    + rewrite eval_exp_unary_minus in H.
      destruct (Interpreter.eval_exp self x) as [v| |]; simpl in H.
      * apply neg_Raise in H as ->. apply TypeError_not_defensive.
      * inversion H; subst. auto.
      * discriminate.
  - rewrite (eval_exp_binary _ _ _ _ Hop) in H.
    destruct (Interpreter.eval_exp self l) as [a| |]; simpl in H;
      [|inversion H; subst; auto|discriminate].
    destruct (Interpreter.eval_exp self r) as [b| |]; simpl in H;
      [|inversion H; subst; auto|discriminate].
    destruct (String.eqb op "+"); [apply add_Raise in H as ->; apply TypeError_not_defensive|].
    destruct (String.eqb op "-"); [apply sub_Raise in H as ->; apply TypeError_not_defensive|].
    apply mul_Raise in H as ->. apply TypeError_not_defensive.
Qed.

(** *** The assignment loop *)

Lemma run_assignments_cons tag name e l self :
  Interpreter.run_assignments ((tag, name, e) :: l) self =
  match Interpreter.eval_exp self e with
  | Return v => Interpreter.run_assignments l (Interpreter.set_var name v self)
  | Raise x => (Raise x, self)
  | OutOfFuel => (OutOfFuel, self)
  end.
Proof.
  simpl. unfold bind, lift, modify.
  destruct (Interpreter.eval_exp self e); reflexivity.
Qed.

Lemma run_assignments_app l1 l2 self :
  Interpreter.run_assignments (l1 ++ l2) self =
  match Interpreter.run_assignments l1 self with
  | (Return _, mid) => Interpreter.run_assignments l2 mid
  | (Raise x, s) => (Raise x, s)
  | (OutOfFuel, s) => (OutOfFuel, s)
  end.
Proof.
  revert self. induction l1 as [|[[tag name] e] l1 IH]; intros self.
  - reflexivity.
  - rewrite <- app_comm_cons, !run_assignments_cons.
    destruct (Interpreter.eval_exp self e); [apply IH | reflexivity | reflexivity].
Qed.

(** The names bound after the loop are those bound before it and the
    targets of the statements. *)
Lemma run_assignments_dom l self self' :
  Interpreter.run_assignments l self = (Return tt, self') ->
  forall name,
    is_Some (Interpreter.vars self' !! name) <->
    is_Some (Interpreter.vars self !! name) \/ exists a : assign, a ∈ l /\ a.1.2 = name.
Proof.
  revert self. induction l as [|[[tag target] e] l IH]; intros self H name.
  - inversion H; subst. split; [auto|].
    intros [?|(a & Ha & _)]; [assumption|]. inversion Ha.
  - rewrite run_assignments_cons in H.
    destruct (Interpreter.eval_exp self e) as [v| |]; try discriminate.
    rewrite (IH _ H name). simpl.
    destruct (decide (target = name)) as [->|Hne].
    + rewrite lookup_insert_eq. split; intros _.
      * right. exists (tag, name, e). split; [left | reflexivity].
      * left. eauto.
    + rewrite lookup_insert_ne by assumption. split.
      * intros [?|(a & Ha & Hn)]; [auto|]. right. exists a. split; [right; assumption | assumption].
      * intros [?|(a & Ha & Hn)]; [auto|].
        apply elem_of_cons in Ha as [->|Ha]; [simpl in Hn; congruence|].
        right. exists a. auto.
Qed.

(** *** The report *)

Lemma print_vars_Return names self lines self' :
  Interpreter.print_vars names self = (Return lines, self') ->
  self' = self /\
  Forall2 (fun name line =>
             exists v, Interpreter.vars self !! name = Some v /\ line = report_line name v)
          names lines.
Proof.
  revert lines. induction names as [|name names IH]; intros lines H.
  - inversion H; subst. split; [reflexivity | constructor].
  - simpl in H. destruct (Interpreter.vars self !! name) as [v|] eqn:Hv; [|discriminate].
    apply bind_Return in H as (rest & s1 & Hrest & H).
    inversion H; subst.
    apply IH in Hrest as [-> Hrest].
    split; [reflexivity|]. constructor; [|assumption].
    exists v. auto.
Qed.

Lemma string_le_lt a b : String.le a b -> a <> b -> string_lt a b.
Proof.
  unfold String.le, string_lt, String.leb, String.ltb. intros Hle Hne.
  destruct (String.compare a b) eqn:E.
  - apply String.compare_eq_iff in E. contradiction.
  - reflexivity.
  - contradiction.
Qed.

Lemma sorted_strictly names :
  NoDup names -> StronglySorted string_lt (Interpreter.sorted names).
Proof.
  intros Hnd. unfold Interpreter.sorted.
  assert (Hs : StronglySorted String.le (merge_sort String.le names))
    by apply (StronglySorted_merge_sort _).
  assert (Hnd' : NoDup (merge_sort String.le names)).
  { rewrite merge_sort_Permutation. exact Hnd. }
  induction Hs as [|a l Hs IH Hall]; [constructor|].
  apply NoDup_cons in Hnd' as [Hni Hnd'].
  constructor; [auto|].
  rewrite Forall_forall in Hall |- *. intros b Hb.
  apply string_le_lt; [auto|]. intros ->. contradiction.
Qed.

Lemma elem_of_sorted_keys d name :
  name ∈ Interpreter.sorted (Interpreter.keys d) <-> is_Some (d !! name).
Proof.
  unfold Interpreter.sorted, Interpreter.keys.
  rewrite merge_sort_Permutation, elem_of_elements, elem_of_dom. reflexivity.
Qed.

End InterpreterFacts.

(** * The specification's claims *)

(** C1: running the whole pipeline on the worked example succeeds, binds
    x to 1, y to 2 and z to 3, and prints the three bindings in that
    order. *)
Theorem worked_example_runs :
  run_program worked_example = Return ["x = 1"; "y = 2"; "z = 3"] /\
  exists tokens assignments self',
    fst (Lexer.tokenize (Lexer.init worked_example)) = Return tokens /\
    fst (Parser.parse (Parser.init tokens)) = Return assignments /\
    Interpreter.run (Interpreter.init assignments)
    = (Return ["x = 1"; "y = 2"; "z = 3"], self') /\
    Interpreter.vars self'
    = <["x" := PyInt 1]> (<["y" := PyInt 2]> (<["z" := PyInt 3]> ∅)).
Proof.
  split; [vm_compute; reflexivity|].
  eexists _, _, _. split; [vm_compute; reflexivity|].
  split; [vm_compute; reflexivity|].
  split; [vm_compute; reflexivity|].
  vm_compute; reflexivity.
Qed.

(** C2 as stated does not hold: the scanner stops on ["@"] at index 0 and
    on [" @"] at index 1 and raises the very same exception both times, so
    no position can be read off the error. *)
Lemma lexical_error_has_no_position :
  Lexer.tokenize (Lexer.init "@")
  = (Raise (InterpreterError "Lexical error: Unexpected character: @"),
     Lexer.mkLexer "@" 0 1) /\
  Lexer.tokenize (Lexer.init " @")
  = (Raise (InterpreterError "Lexical error: Unexpected character: @"),
     Lexer.mkLexer " @" 1 2) /\
  ~ lexical_error_reports_position.
Proof.
  assert (H0 : Lexer.tokenize (Lexer.init "@")
               = (Raise (InterpreterError "Lexical error: Unexpected character: @"),
                  Lexer.mkLexer "@" 0 1)) by (vm_compute; reflexivity).
  assert (H1 : Lexer.tokenize (Lexer.init " @")
               = (Raise (InterpreterError "Lexical error: Unexpected character: @"),
                  Lexer.mkLexer " @" 1 2)) by (vm_compute; reflexivity).
  split; [exact H0|]. split; [exact H1|].
  intros [position_of H].
  apply H in H0, H1. simpl in H0, H1. congruence.
Qed.

(** C2, amended: whenever the scanner fails, the error it raises either
    names the offending character, which is the one under the cursor where
    the scanner stopped and which opens no token, or it names the
    invalid-number condition, and then the cursor stopped on the digit that
    follows a leading zero.  The position stays in the scanner; the error
    holds the message only. *)
Theorem lexical_error_names_the_cause (text : string) (e : exn) (self' : Lexer.state) :
  Lexer.tokenize (Lexer.init text) = (Raise e, self') ->
  (exists c,
      String.get (Lexer.pos self') text = Some c /\
      Py.isspace c = false /\ punctuation c = false /\
      identifier_start c = false /\ Py.isdigit c = false /\
      e = InterpreterError ("Lexical error: Unexpected character: " +:+ String c "")) \/
  (exists d,
      String.get (Lexer.pos self' - 1) text = Some "0"%char /\
      String.get (Lexer.pos self') text = Some d /\ Py.isdigit d = true /\
      e = InterpreterError "Lexical error: Invalid number format (leading zero).").
Proof.
  intros H. unfold Lexer.tokenize in H.
  apply LexerFacts.tokenize_loop_Raise in H as (Ht & s1 & Hs1 & Hsp & Hsc).
  simpl in Ht, Hs1.
  inversion Hsc; subst.
  - right. exists d.
    apply LexerFacts.cursor_on_char in H0 as [_ H0].
    apply LexerFacts.cursor_on_char in H1 as [_ H1].
    simpl in *.
    replace (Lexer.pos s1 + 1 - 1) with (Lexer.pos s1) by lia. auto.
  - left. exists c. rewrite H0 in Hsp.
    apply LexerFacts.cursor_on_char in H0 as [_ H0].
    auto 10.
Qed.

(** The amended C2 at the text [x = $;], which fails on the [$] at index 4. *)
Lemma lexical_error_names_the_cause_witness :
  (exists c,
      String.get 4 "x = $;" = Some c /\
      Py.isspace c = false /\ punctuation c = false /\
      identifier_start c = false /\ Py.isdigit c = false /\
      InterpreterError "Lexical error: Unexpected character: $"
      = InterpreterError ("Lexical error: Unexpected character: " +:+ String c "")) \/
  (exists d,
      String.get (4 - 1) "x = $;" = Some "0"%char /\
      String.get 4 "x = $;" = Some d /\ Py.isdigit d = true /\
      InterpreterError "Lexical error: Unexpected character: $"
      = InterpreterError "Lexical error: Invalid number format (leading zero).").
Proof.
  apply (lexical_error_names_the_cause "x = $;"
           (InterpreterError "Lexical error: Unexpected character: $")
           (Lexer.mkLexer "x = $;" 4 6)).
  vm_compute. reflexivity.
Defined.

(** C3: when [tokenize] succeeds, the token sequence ends with the
    end-of-input token and holds no token of type ['EOF'] before it. *)
Theorem tokenize_ends_with_one_EOF (text : string) (tokens : list Token) :
  fst (Lexer.tokenize (Lexer.init text)) = Return tokens ->
  exists front,
    tokens = front ++ [mkToken Lexer.EOF ""] /\
    Forall (fun t => ttype t <> Lexer.EOF) front.
Proof.
  intros H. destruct (Lexer.tokenize (Lexer.init text)) as [o self'] eqn:E.
  simpl in H. subst o. unfold Lexer.tokenize in E.
  apply LexerFacts.tokenize_loop_Return in E as (front & -> & Hfront & _).
  exists front. auto.
Qed.

(** C3 at the text [EOF = 1;], where an identifier is spelled like the
    end-of-input tag. *)
Lemma tokenize_ends_with_one_EOF_witness :
  exists front,
    [mkToken "IDENTIFIER" "EOF"; mkToken "=" "="; mkToken "LITERAL" "1";
     mkToken ";" ";"; mkToken "EOF" ""]
    = front ++ [mkToken Lexer.EOF ""] /\
    Forall (fun t => ttype t <> Lexer.EOF) front.
Proof.
  apply (tokenize_ends_with_one_EOF "EOF = 1;").
  vm_compute. reflexivity.
Defined.

(** C4: a chain of operators of one level folds from the left.  For every
    statement [x = a0 op1 a1 ... opn an ;] whose operators are all [+] or
    [-], or all [*], the parser builds the tree grouped from the left; so
    [5 - 2 - 1] is [(5 - 2) - 1], and the program [x = 5 - 2 - 1;] ends
    with x = 2. *)
Theorem same_level_chains_fold_left (x a0 : string) (chain : list (string * string)) :
  Forall additive chain \/ Forall multiplicative chain ->
  fst (Parser.parse (Parser.init (chain_statement x a0 chain)))
  = Return [("assign", x, fold_chain (var a0) chain)] /\
  fst (Lexer.tokenize (Lexer.init "x = a + b - c;"))
  = Return (chain_statement "x" "a" [("+", "b"); ("-", "c")]) /\
  parse_program "x = 5 - 2 - 1;"
  = Return [("assign", "x",
             PyTuple [PyStr "-";
                      PyTuple [PyStr "-"; PyTuple [PyStr "lit"; PyInt 5];
                               PyTuple [PyStr "lit"; PyInt 2]];
                      PyTuple [PyStr "lit"; PyInt 1]])] /\
  run_program "x = 5 - 2 - 1;" = Return ["x = 2"].
Proof.
  intros Hlevel. split; [apply ChainFacts.parse_chain_statement; exact Hlevel|].
  repeat split; vm_compute; reflexivity.
Qed.

(** C4 at the chain [a * b * c]. *)
Lemma same_level_chains_fold_left_witness :
  fst (Parser.parse (Parser.init (chain_statement "x" "a" [("*", "b"); ("*", "c")])))
  = Return [("assign", "x",
             PyTuple [PyStr "*";
                      PyTuple [PyStr "*"; PyTuple [PyStr "var"; PyStr "a"];
                               PyTuple [PyStr "var"; PyStr "b"]];
                      PyTuple [PyStr "var"; PyStr "c"]])] /\
  fst (Lexer.tokenize (Lexer.init "x = a + b - c;"))
  = Return (chain_statement "x" "a" [("+", "b"); ("-", "c")]) /\
  parse_program "x = 5 - 2 - 1;"
  = Return [("assign", "x",
             PyTuple [PyStr "-";
                      PyTuple [PyStr "-"; PyTuple [PyStr "lit"; PyInt 5];
                               PyTuple [PyStr "lit"; PyInt 2]];
                      PyTuple [PyStr "lit"; PyInt 1]])] /\
  run_program "x = 5 - 2 - 1;" = Return ["x = 2"].
Proof.
  apply (same_level_chains_fold_left "x" "a" [("*", "b"); ("*", "c")]).
  right. repeat constructor.
Defined.

(** C5: multiplication binds tighter than addition, and parentheses
    override that: [2 + 3 * 4] is 14 and [(2 + 3) * 4] is 20. *)
Theorem precedence_and_parentheses :
  run_program "x = 2 + 3 * 4;" = Return ["x = 14"] /\
  run_program "x = (2 + 3) * 4;" = Return ["x = 20"] /\
  parse_program "x = 2 + 3 * 4;"
  = Return [("assign", "x",
             PyTuple [PyStr "+"; PyTuple [PyStr "lit"; PyInt 2];
                      PyTuple [PyStr "*"; PyTuple [PyStr "lit"; PyInt 3];
                               PyTuple [PyStr "lit"; PyInt 4]]])] /\
  parse_program "x = (2 + 3) * 4;"
  = Return [("assign", "x",
             PyTuple [PyStr "*";
                      PyTuple [PyStr "+"; PyTuple [PyStr "lit"; PyInt 2];
                               PyTuple [PyStr "lit"; PyInt 3]];
                      PyTuple [PyStr "lit"; PyInt 4]])].
Proof. repeat split; vm_compute; reflexivity. Qed.

(** C6: scanning ["01"] fails with the leading-zero lexical error, and
    ["0"] alone is scanned as one integer-literal token, whose text ["0"]
    the parser reads as the integer 0. *)
Theorem leading_zero_literal :
  fst (Lexer.tokenize (Lexer.init "01"))
  = Raise (InterpreterError "Lexical error: Invalid number format (leading zero).") /\
  fst (Lexer.tokenize (Lexer.init "0"))
  = Return [mkToken Lexer.LITERAL "0"; mkToken Lexer.EOF ""] /\
  Py.int "0" = Return 0%Z /\
  fst (Parser.fact 1 (Parser.init [mkToken Lexer.LITERAL "0"; mkToken Lexer.EOF ""]))
  = Return (PyTuple [PyStr "lit"; PyInt 0]).
Proof. repeat split; vm_compute; reflexivity. Qed.

(** C7: evaluating a Variable node whose name has no binding raises the
    evaluation error that names the variable, and returns no value; the
    program [y = x;] fails so. *)
Theorem unbound_variable_raises (self : Interpreter.state) (name : string) :
  Interpreter.vars self !! name = None ->
  Interpreter.eval_exp self (PyTuple [PyStr "var"; PyStr name])
  = Raise (InterpreterError ("Uninitialized variable: " +:+ name)) /\
  run_program "y = x;" = Raise (InterpreterError "Uninitialized variable: x").
Proof.
  intros H. split; [|vm_compute; reflexivity].
  rewrite InterpreterFacts.eval_exp_var, H. reflexivity.
Qed.

(** C7 in the empty environment. *)
Lemma unbound_variable_raises_witness :
  Interpreter.eval_exp (Interpreter.init []) (PyTuple [PyStr "var"; PyStr "x"])
  = Raise (InterpreterError ("Uninitialized variable: " +:+ "x")) /\
  run_program "y = x;" = Raise (InterpreterError "Uninitialized variable: x").
Proof.
  apply (unbound_variable_raises (Interpreter.init []) "x").
  reflexivity.
Defined.

(** C8: on success the report has one line per distinct assigned variable,
    each of the form [name = value] with the variable's final value, in
    strictly ascending order of the names, whatever the order of the
    assignments; for [b = 1; a = 2;] it is [a = 2] then [b = 1]. *)
Theorem report_is_sorted_by_name (program : list assign) (lines : list string) :
  fst (Interpreter.run (Interpreter.init program)) = Return lines ->
  (exists names,
      StronglySorted string_lt names /\
      (forall name, name ∈ names <-> exists a : assign, a ∈ program /\ a.1.2 = name) /\
      Forall2 (fun name line =>
                 exists v,
                   Interpreter.vars (snd (Interpreter.run (Interpreter.init program))) !! name
                   = Some v /\
                   line = name +:+ " = " +:+ Py.str v)
              names lines) /\
  run_program "b = 1; a = 2;" = Return ["a = 2"; "b = 1"].
Proof.
  intros H. split; [|vm_compute; reflexivity].
  destruct (Interpreter.run (Interpreter.init program)) as [o self'] eqn:E.
  simpl in H. subst o. simpl.
  unfold Interpreter.run in E.
  apply bind_Return in E as (l & s0 & Hl & E). inversion Hl; subst l s0. clear Hl.
  apply bind_Return in E as ([] & s1 & Hrun & E).
  apply bind_Return in E as (names & s2 & Hnames & E). inversion Hnames; subst names s2.
  clear Hnames.
  apply InterpreterFacts.print_vars_Return in E as [-> Hlines].
  exists (Interpreter.sorted (Interpreter.keys (Interpreter.vars s1))).
  split; [|split].
  - apply InterpreterFacts.sorted_strictly. unfold Interpreter.keys. apply NoDup_elements.
  - intros name. rewrite InterpreterFacts.elem_of_sorted_keys.
    rewrite (InterpreterFacts.run_assignments_dom _ _ _ Hrun name). simpl.
    rewrite lookup_empty. split.
    + intros [[v Hv]|Ha]; [discriminate | assumption].
    + auto.
  - exact Hlines.
Qed.

(** C8 at the statements [b = 1; a = 2; b = 3;]. *)
Lemma report_is_sorted_by_name_witness :
  (exists names,
      StronglySorted string_lt names /\
      (forall name,
          name ∈ names <->
          exists a : assign,
            a ∈ [("assign", "b", PyTuple [PyStr "lit"; PyInt 1]);
                 ("assign", "a", PyTuple [PyStr "lit"; PyInt 2]);
                 ("assign", "b", PyTuple [PyStr "lit"; PyInt 3])] /\
            a.1.2 = name) /\
      Forall2 (fun name line =>
                 exists v,
                   Interpreter.vars
                     (snd (Interpreter.run
                             (Interpreter.init
                                [("assign", "b", PyTuple [PyStr "lit"; PyInt 1]);
                                 ("assign", "a", PyTuple [PyStr "lit"; PyInt 2]);
                                 ("assign", "b", PyTuple [PyStr "lit"; PyInt 3])])))
                   !! name = Some v /\
                   line = name +:+ " = " +:+ Py.str v)
              names ["a = 2"; "b = 3"]) /\
  run_program "b = 1; a = 2;" = Return ["a = 2"; "b = 1"].
Proof.
  apply (report_is_sorted_by_name
           [("assign", "b", PyTuple [PyStr "lit"; PyInt 1]);
            ("assign", "a", PyTuple [PyStr "lit"; PyInt 2]);
            ("assign", "b", PyTuple [PyStr "lit"; PyInt 3])]
           ["a = 2"; "b = 3"]).
  vm_compute. reflexivity.
Defined.

(** C9: in every program, once the statements before an assignment have
    run, its right-hand side is evaluated in the environment they produced,
    starting from the empty one; only if that succeeds is the target bound
    to the value, as a new binding or over the old one, and the rest of the
    program goes on from there.  So [x = 1; x = x + 1;] ends with x = 2. *)
Theorem assignment_reads_then_binds
  (pre post : list assign) (tag name : string) (e : pyobj) (mid : Interpreter.state) :
  let program := pre ++ (tag, name, e) :: post in
  Interpreter.run_assignments pre (Interpreter.init program) = (Return tt, mid) ->
  Interpreter.vars (Interpreter.init program) = ∅ /\
  Interpreter.run_assignments program (Interpreter.init program)
  = match Interpreter.eval_exp mid e with
    | Return v => Interpreter.run_assignments post (Interpreter.set_var name v mid)
    | Raise x => (Raise x, mid)
    | OutOfFuel => (OutOfFuel, mid)
    end /\
  (forall v,
      Interpreter.vars (Interpreter.set_var name v mid)
      = <[name := v]> (Interpreter.vars mid)) /\
  run_program "x = 1; x = x + 1;" = Return ["x = 2"].
Proof.
  intros program H. split; [reflexivity|].
  split; [|split; [reflexivity | vm_compute; reflexivity]].
  unfold program at 1. rewrite InterpreterFacts.run_assignments_app, H.
  apply InterpreterFacts.run_assignments_cons.
Qed.

(** C9 at the second statement of [x = 1; x = x + 1;]. *)
Lemma assignment_reads_then_binds_witness :
  let pre := [("assign", "x", PyTuple [PyStr "lit"; PyInt 1])] in
  let e := PyTuple [PyStr "+"; PyTuple [PyStr "var"; PyStr "x"];
                    PyTuple [PyStr "lit"; PyInt 1]] in
  let program := pre ++ ("assign", "x", e) :: [] in
  let mid := Interpreter.mkInterpreter program (<["x" := PyInt 1]> ∅) in
  Interpreter.vars (Interpreter.init program) = ∅ /\
  Interpreter.run_assignments program (Interpreter.init program)
  = match Interpreter.eval_exp mid e with
    | Return v => Interpreter.run_assignments [] (Interpreter.set_var "x" v mid)
    | Raise x => (Raise x, mid)
    | OutOfFuel => (OutOfFuel, mid)
    end /\
  (forall v,
      Interpreter.vars (Interpreter.set_var "x" v mid)
      = <["x" := v]> (Interpreter.vars mid)) /\
  run_program "x = 1; x = x + 1;" = Return ["x = 2"].
Proof.
  intros pre e program mid.
  apply (assignment_reads_then_binds pre [] "assign" "x" e mid).
  vm_compute. reflexivity.
Defined.

(** C10: every tree that [parse] builds from tokens that [tokenize]
    returned is made of the four node shapes, and on such a tree [eval_exp]
    raises neither of its two defensive errors, in any environment. *)
Theorem parsed_trees_avoid_defensive_errors
  (text : string) (tokens : list Token) (assignments : list assign) :
  fst (Lexer.tokenize (Lexer.init text)) = Return tokens ->
  fst (Parser.parse (Parser.init tokens)) = Return assignments ->
  forall a : assign,
    a ∈ assignments ->
    well_formed a.2 /\
    forall self : Interpreter.state,
      Interpreter.eval_exp self a.2 <> Raise (InterpreterError "Invalid AST node.") /\
      Interpreter.eval_exp self a.2
      <> Raise (InterpreterError "Unknown node structure in evaluation.").
Proof.
  intros Htok Hparse a Ha.
  destruct (Lexer.tokenize (Lexer.init text)) as [o1 lx] eqn:E1.
  simpl in Htok. subst o1. unfold Lexer.tokenize in E1.
  apply LexerFacts.tokenize_loop_Return in E1 as (front & -> & _ & Hok).
  simpl app in Hparse.
  destruct (Parser.parse (Parser.init (front ++ [mkToken "EOF" ""]))) as [o2 ps] eqn:E2.
  simpl in Hparse. subst o2.
  apply ParserFacts.parse_sound in E2.
  - rewrite Forall_forall in E2. specialize (E2 a Ha).
    split; [assumption|].
    intros self. split; intros Hev;
      apply (InterpreterFacts.eval_exp_well_formed _ _ _ E2) in Hev;
      apply Hev; [left | right]; reflexivity.
  - apply Forall_app. split; [assumption|].
    constructor; [|constructor]. intros [E|E]; discriminate.
Qed.

(** C10 at the text [z = -(x - 2) * 3;]. *)
Lemma parsed_trees_avoid_defensive_errors_witness :
  let a : assign :=
    ("assign", "z",
     PyTuple [PyStr "*";
              PyTuple [PyStr "-";
                       PyTuple [PyStr "-"; PyTuple [PyStr "var"; PyStr "x"];
                                PyTuple [PyStr "lit"; PyInt 2]]];
              PyTuple [PyStr "lit"; PyInt 3]]) in
  well_formed a.2 /\
  forall self : Interpreter.state,
    Interpreter.eval_exp self a.2 <> Raise (InterpreterError "Invalid AST node.") /\
    Interpreter.eval_exp self a.2
    <> Raise (InterpreterError "Unknown node structure in evaluation.").
Proof.
  intros a.
  refine (parsed_trees_avoid_defensive_errors "z = -(x - 2) * 3;" _ [a] _ _ a _).
  - vm_compute. reflexivity.
  - vm_compute. reflexivity.
  - constructor.
Defined.


(** * Further properties of the scanner *)

Module LexerMore.

(** *** Slices *)

Lemma get_drop i a t : String.get i (Py.drop a t) = String.get (a + i) t.
Proof.
  revert t. induction a as [|a IH]; intros t; [reflexivity|].
  destruct t as [|c t]; simpl; [destruct i; reflexivity | apply IH].
Qed.

Lemma drop_get a t c :
  String.get a t = Some c -> Py.drop a t = String c (Py.drop (S a) t).
Proof.
  revert t. induction a as [|a IH]; intros t H.
  - destruct t as [|c' t]; simpl in *; [discriminate|]. inversion H; subst.
    destruct t; reflexivity.
  - destruct t as [|c' t]; simpl in H; [discriminate|].
    change (Py.drop (S a) (String c' t)) with (Py.drop a t).
    rewrite (IH _ H). reflexivity.
Qed.

Lemma take_run p n t :
  (forall i, i < n -> exists c, String.get i t = Some c /\ p c = true) ->
  all_chars p (Py.take n t) = true.
Proof.
  revert t. induction n as [|n IH]; intros t H; [reflexivity|].
  destruct (H 0) as (c & Hc & Hp); [lia|].
  destruct t as [|c' t]; simpl in Hc; [discriminate|]. inversion Hc; subst c'.
  unfold all_chars. simpl. rewrite Hp. simpl.
  apply IH. intros i Hi. apply (H (S i)). lia.
Qed.

Lemma slice_run p t a b :
  (forall i, a <= i < b -> exists c, String.get i t = Some c /\ p c = true) ->
  all_chars p (Py.slice t a b) = true.
Proof.
  intros H. unfold Py.slice. apply take_run. intros i Hi.
  rewrite get_drop. apply H. lia.
Qed.

Lemma slice_cons t a b c :
  String.get a t = Some c -> a < b ->
  Py.slice t a b = String c (Py.slice t (S a) b).
Proof.
  intros Hc Hlt. unfold Py.slice. rewrite (drop_get _ _ _ Hc).
  replace (b - a) with (S (b - S a)) by lia. reflexivity.
Qed.

Lemma slice_one t a c : String.get a t = Some c -> Py.slice t a (a + 1) = String c "".
Proof.
  intros Hc. rewrite (slice_cons _ _ _ _ Hc) by lia. unfold Py.slice.
  replace (a + 1 - S a) with 0 by lia. reflexivity.
Qed.

Lemma all_chars_get p t i c :
  all_chars p t = true -> String.get i t = Some c -> p c = true.
Proof.
  revert i. induction t as [|c' t IH]; intros i Hall Hget; [destruct i; discriminate|].
  unfold all_chars in Hall. simpl in Hall. apply andb_true_iff in Hall as [Hc Hall].
  destruct i as [|i]; simpl in Hget.
  - inversion Hget; subst. exact Hc.
  - eapply IH; eassumption.
Qed.




(** *** The characters a [while] loop passes *)

Lemma advance_while_run p n self i :
  Lexer.pos self <= i < Lexer.pos (Lexer.advance_while p n self) ->
  exists c, String.get i (Lexer.text self) = Some c /\ p c = true.
Proof.
  revert self. induction n as [|n IH]; intros self Hi; simpl in Hi; [lia|].
  destruct (Lexer.peek self) as [c|] eqn:Hc; [|lia].
  destruct (p c) eqn:Hp; [|lia].
  apply LexerFacts.cursor_on_char in Hc as [_ Hc].
  destruct (decide (i = Lexer.pos self)) as [->|Hne]; [eauto|].
  apply (IH (Lexer.advance self)). simpl. lia.
Qed.

Lemma while_peek_run p self i :
  Lexer.pos self <= i < Lexer.pos (Lexer.while_peek p self) ->
  exists c, String.get i (Lexer.text self) = Some c /\ p c = true.
Proof. apply advance_while_run. Qed.

(** *** The tokens *)

Lemma scanned_token_ok s1 token s2 :
  scanned s1 (Return token) s2 ->
  token_ok token /\ exists a b, value token = Py.slice (Lexer.text s1) a b.
Proof.
  intros H. inversion H; subst;
    try match goal with Hc : Lexer.peek _ = Some _ |- _ =>
          pose proof (LexerFacts.cursor_on_char _ _ Hc) as [Hlt Hget] end.
  - split; [right; right; right; reflexivity|]. exists 0, 0. reflexivity.
  - split; [left; eauto|]. exists (Lexer.pos s1), (Lexer.pos s1 + 1).
    simpl. symmetry. apply slice_one. exact Hget.
  - split; [|eauto]. right. left. split; [reflexivity|]. simpl.
    match goal with
    | Hp : Lexer.peek s1 = Some c, Hid : identifier_start c = true |- _ =>
        pose proof (LexerFacts.while_peek_moves identifier_char s1 c Hp
                      (LexerFacts.identifier_start_char c Hid)) as Hmove
    end.
    rewrite (slice_cons _ _ _ _ Hget Hmove).
    exists c, (Py.slice (Lexer.text s1) (S (Lexer.pos s1))
                 (Lexer.pos (Lexer.while_peek identifier_char s1))).
    split; [reflexivity|]. split; [assumption|].
    apply slice_run. intros i Hi. apply (while_peek_run identifier_char s1). lia.
  - split; [|eauto]. right. right. left. split; [reflexivity|]. simpl. right.
    destruct (LexerFacts.while_peek_fields Py.isdigit (Lexer.advance s1)) as (_ & _ & Hp).
    simpl in Hp.
    rewrite (slice_cons _ _ _ _ Hget) by lia.
    exists c, (Py.slice (Lexer.text s1) (S (Lexer.pos s1))
                 (Lexer.pos (Lexer.while_peek Py.isdigit (Lexer.advance s1)))).
    split; [reflexivity|]. split; [assumption|]. split; [assumption|].
    apply slice_run. intros i Hi.
    apply (while_peek_run Py.isdigit (Lexer.advance s1)). simpl. lia.
  - split; [|eauto]. right. right. left. split; [reflexivity|]. simpl. left.
    apply slice_one. exact Hget.
Qed.

Lemma tokenize_loop_tokens fuel acc self tokens self' (P : Token -> Prop) :
  (forall token, (token_ok token /\
                  exists a b, value token = Py.slice (Lexer.text self) a b) -> P token) ->
  Forall P acc ->
  Lexer.tokenize_loop fuel acc self = (Return tokens, self') ->
  Forall P tokens.
Proof.
  revert acc self. induction fuel as [|fuel IH]; intros acc self HP Hacc H; [discriminate|].
  rewrite LexerFacts.tokenize_loop_unfold in H.
  destruct (Lexer.next_token self) as [[token|e|] s'] eqn:Hn; try discriminate.
  pose proof (LexerFacts.next_token_fields _ _ _ Hn) as (Ht & _ & _).
  apply LexerFacts.next_token_inv, scanned_token_ok in Hn.
  destruct (LexerFacts.while_peek_fields Py.isspace self) as (Hts & _ & _).
  unfold Lexer.skip_whitespace in Hn. rewrite Hts in Hn.
  assert (Hall : Forall P (acc ++ [token])).
  { apply Forall_app. split; [assumption|]. constructor; [auto | constructor]. }
  destruct (String.eqb (ttype token) "EOF").
  - inversion H; subst. exact Hall.
  - eapply IH; [| exact Hall | exact H]. rewrite Ht. exact HP.
Qed.

End LexerMore.

(** X1: every token [tokenize] returns is one of the seven one-character
    tokens, an identifier whose text starts with a letter or underscore and
    goes on with letters, digits and underscores, a literal whose text is
    ["0"] or digits not starting with ["0"], or the end-of-input token; and
    the text of every token is a slice of the source text. *)
Theorem tokens_are_well_shaped (text : string) (tokens : list Token) :
  fst (Lexer.tokenize (Lexer.init text)) = Return tokens ->
  Forall (fun t => token_ok t /\ exists a b, value t = Py.slice text a b) tokens.
Proof.
  intros H. destruct (Lexer.tokenize (Lexer.init text)) as [o self'] eqn:E.
  simpl in H. subst o. unfold Lexer.tokenize in E.
  eapply LexerMore.tokenize_loop_tokens; [| constructor | exact E].
  intros token Htoken. exact Htoken.
Qed.

(** X1 at the text [n_1 = (10+0);]. *)
Lemma tokens_are_well_shaped_witness :
  Forall (fun t => token_ok t /\ exists a b, value t = Py.slice "n_1 = (10+0);" a b)
    [mkToken "IDENTIFIER" "n_1"; mkToken "=" "="; mkToken "(" "(";
     mkToken "LITERAL" "10"; mkToken "+" "+"; mkToken "LITERAL" "0";
     mkToken ")" ")"; mkToken ";" ";"; mkToken "EOF" ""].
Proof.
  apply (tokens_are_well_shaped "n_1 = (10+0);").
  vm_compute. reflexivity.
Defined.

(** X2: an identifier or a literal is the longest match: when [next_token]
    returns one, the character now under the cursor, if any, could not have
    continued it. *)
Theorem next_token_longest_match
  (self : Lexer.state) (token : Token) (self' : Lexer.state) :
  Lexer.next_token self = (Return token, self') ->
  match Lexer.peek self' with
  | Some c =>
      (ttype token = "IDENTIFIER" -> identifier_char c = false) /\
      (ttype token = "LITERAL" -> Py.isdigit c = false)
  | None => True
  end.
Proof.
  intros H. apply LexerFacts.next_token_inv in H.
  inversion H; subst; simpl.
  - match goal with |- match ?x with _ => _ end => destruct x end;
      [split; discriminate | exact I].
  - match goal with |- match ?x with _ => _ end => destruct x end; [|exact I].
    match goal with Hp : punctuation c = true |- _ =>
      unfold punctuation in Hp; simpl in Hp;
      split; intros E; exfalso; revert E Hp;
      repeat (destruct (Ascii.eqb_spec c _) as [->|?]; [discriminate|]); discriminate
    end.
  - pose proof (LexerFacts.while_peek_stops identifier_char
                  (Lexer.skip_whitespace self)) as Hs.
    match goal with |- match ?x with _ => _ end => destruct x end; [|exact I].
    split; [auto | discriminate].
  - pose proof (LexerFacts.while_peek_stops Py.isdigit
                  (Lexer.advance (Lexer.skip_whitespace self))) as Hs.
    match goal with |- match ?x with _ => _ end => destruct x end; [|exact I].
    split; [discriminate | auto].
  - match goal with |- match ?x with _ => _ end => destruct x end; [|exact I].
    split; [discriminate | auto].
Qed.

(** X2 at the text [ab+], after whose identifier the cursor is on [+]. *)
Lemma next_token_longest_match_witness :
  match Lexer.peek (Lexer.mkLexer "ab+" 2 3) with
  | Some c =>
      (ttype (mkToken "IDENTIFIER" "ab") = "IDENTIFIER" -> identifier_char c = false) /\
      (ttype (mkToken "IDENTIFIER" "ab") = "LITERAL" -> Py.isdigit c = false)
  | None => True
  end.
Proof.
  apply (next_token_longest_match (Lexer.init "ab+")).
  vm_compute. reflexivity.
Defined.

(** X3: on every text [tokenize] comes to an end, and when it does not
    return the tokens it raises an [InterpreterError] whose message starts
    with [Lexical error: ]; no other exception leaves the scanner. *)
Theorem tokenize_returns_or_raises_lexical (text : string) :
  (exists tokens, fst (Lexer.tokenize (Lexer.init text)) = Return tokens) \/
  (exists msg,
      fst (Lexer.tokenize (Lexer.init text))
      = Raise (InterpreterError ("Lexical error: " +:+ msg))).
Proof.
  pose proof (LexerFacts.tokenize_returns_or_raises text) as Hend.
  destruct (Lexer.tokenize (Lexer.init text)) as [[tokens|e|] self'] eqn:E; simpl in *.
  - left. eauto.
  - right. unfold Lexer.tokenize in E.
    apply LexerFacts.tokenize_loop_Raise in E as (_ & s1 & _ & _ & Hsc).
    inversion Hsc; subst; eauto.
  - contradiction.
Qed.

(** * Further properties of the parser *)

Module ParserMore.











End ParserMore.



(** * Further properties of the evaluator *)

Module InterpreterMore.





Lemma run_unfold self :
  Interpreter.run self =
  match Interpreter.run_assignments (Interpreter.assignments self) self with
  | (Return _, s1) =>
      Interpreter.print_vars (Interpreter.sorted (Interpreter.keys (Interpreter.vars s1))) s1
  | (Raise e, s1) => (Raise e, s1)
  | (OutOfFuel, s1) => (OutOfFuel, s1)
  end.
Proof.
  unfold Interpreter.run, bind, gets.
  destruct (Interpreter.run_assignments (Interpreter.assignments self) self)
    as [[[]|e|] s1]; reflexivity.
Qed.

End InterpreterMore.





(** * Properties of the whole pipeline *)

Module PipelineFacts.

(** *** Literals of ASCII digits convert *)








(** *** The three stages in a row *)


End PipelineFacts.




(** * Further properties: rebinding and unary signs *)

Module RunMore.

Lemma run_assignments_untouched l self self' name :
  Interpreter.run_assignments l self = (Return tt, self') ->
  (forall a, a ∈ l -> target a <> name) ->
  Interpreter.vars self' !! name = Interpreter.vars self !! name.
Proof.
  revert self. induction l as [|[[tag other] e] l IH]; intros self H Hno.
  - inversion H; subst. reflexivity.
  - rewrite InterpreterFacts.run_assignments_cons in H.
    destruct (Interpreter.eval_exp self e) as [v| |]; try discriminate.
    rewrite (IH _ H) by (intros a Ha; apply Hno; right; exact Ha).
    simpl. apply lookup_insert_ne.
    apply (Hno (tag, other, e)). left.
Qed.

Lemma print_vars_line names self lines self' name v :
  Interpreter.print_vars names self = (Return lines, self') ->
  name ∈ names -> Interpreter.vars self !! name = Some v ->
  (name +:+ " = " +:+ Py.str v) ∈ lines.
Proof.
  intros H Hin Hv. apply InterpreterFacts.print_vars_Return in H as [_ H].
  induction H as [|n line names lines (v' & Hv' & ->) H IH]; [inversion Hin|].
  apply elem_of_cons in Hin as [->|Hin].
  - rewrite Hv in Hv'. inversion Hv'; subst. left.
  - right. apply IH. exact Hin.
Qed.



End RunMore.

(** X9: a variable ends with the value of its last assignment.  If a
    program runs to its end and no statement after an assignment to [name]
    binds [name] again, then the value that assignment computed, in the
    environment of the statements before it, is the final value of [name]
    and is the one the report prints. *)
Theorem last_assignment_wins
  (pre post : list assign) (tag name : string) (e : pyobj) (lines : list string) :
  let program := pre ++ (tag, name, e) :: post in
  fst (Interpreter.run (Interpreter.init program)) = Return lines ->
  (forall a, a ∈ post -> target a <> name) ->
  exists mid v,
    Interpreter.run_assignments pre (Interpreter.init program) = (Return tt, mid) /\
    Interpreter.eval_exp mid e = Return v /\
    Interpreter.vars (snd (Interpreter.run (Interpreter.init program))) !! name = Some v /\
    (name +:+ " = " +:+ Py.str v) ∈ lines.
Proof.
  intros program Hrun Hlast.
  rewrite InterpreterMore.run_unfold in Hrun |- *. simpl Interpreter.assignments in *.
  destruct (Interpreter.run_assignments program (Interpreter.init program))
    as [[[]|x|] final] eqn:E; try discriminate.
  unfold program at 1 in E. rewrite InterpreterFacts.run_assignments_app in E.
  destruct (Interpreter.run_assignments pre (Interpreter.init program))
    as [[[]|x|] mid] eqn:Epre; try discriminate.
  rewrite InterpreterFacts.run_assignments_cons in E.
  destruct (Interpreter.eval_exp mid e) as [v| |] eqn:Ev; try discriminate.
  pose proof (RunMore.run_assignments_untouched _ _ _ name E Hlast) as Hfinal.
  simpl in Hfinal. rewrite lookup_insert_eq in Hfinal.
  destruct (Interpreter.print_vars _ final) as [o self'] eqn:Eprint.
  simpl in Hrun. subst o.
  exists mid, v. split; [reflexivity|]. split; [exact Ev|].
  pose proof (InterpreterFacts.print_vars_Return _ _ _ _ Eprint) as [-> _].
  simpl. split; [exact Hfinal|].
  eapply RunMore.print_vars_line; [exact Eprint | | exact Hfinal].
  apply InterpreterFacts.elem_of_sorted_keys. eauto.
Qed.

(** X9 at the statements [x = 1; y = x; x = 5; y = y;], for the last
    assignment to x. *)
Lemma last_assignment_wins_witness :
  let pre : list assign :=
    [("assign", "x", PyTuple [PyStr "lit"; PyInt 1]);
     ("assign", "y", PyTuple [PyStr "var"; PyStr "x"])] in
  let post : list assign := [("assign", "y", PyTuple [PyStr "var"; PyStr "y"])] in
  let e := PyTuple [PyStr "lit"; PyInt 5] in
  let program := pre ++ ("assign", "x", e) :: post in
  exists mid v,
    Interpreter.run_assignments pre (Interpreter.init program) = (Return tt, mid) /\
    Interpreter.eval_exp mid e = Return v /\
    Interpreter.vars (snd (Interpreter.run (Interpreter.init program))) !! "x" = Some v /\
    ("x" +:+ " = " +:+ Py.str v) ∈ ["x = 5"; "y = 1"].
Proof.
  intros pre post e program.
  apply (last_assignment_wins pre post "assign" "x" e ["x = 5"; "y = 1"]).
  - vm_compute. reflexivity.
  - intros a Ha. apply list_elem_of_singleton in Ha as ->. discriminate.
Defined.



(** * Further properties: the statements of a program *)

Module StatementFacts.

Lemma consume_segment expected self token self' :
  Parser.consume expected self = (Return token, self') ->
  remaining self = token :: remaining self' /\
  match expected with Some ttype' => ttype token = ttype' | None => True end.
Proof.
  intros H. apply ParserFacts.consume_Return in H as (Hp & -> & Hty).
  split; [|exact Hty].
  apply ParserFacts.cursor_on_token in Hp as [_ Hl].
  unfold remaining. simpl. rewrite Nat.add_1_r. apply drop_S. exact Hl.
Qed.

Lemma peek_head self token :
  Parser.peek self = Some token -> head (remaining self) = Some token.
Proof. intros H. rewrite <- ChainFacts.peek_remaining. exact H. Qed.

Lemma expression_type t :
  ttype t = "(" \/ ttype t = ")" \/ ttype t = "+" \/ ttype t = "-" \/ ttype t = "*" \/
  ttype t = "LITERAL" \/ ttype t = "IDENTIFIER" ->
  is_expression_token t = true.
Proof.
  unfold is_expression_token.
  intros [E|[E|[E|[E|[E|[E|E]]]]]]; rewrite E; reflexivity.
Qed.

Lemma segment_nil self : exists seg : list Token,
  remaining self = seg ++ remaining self /\ forallb is_expression_token seg = true.
Proof. exists []. auto. Qed.

Lemma segment_cons t self s1 seg s2 :
  remaining self = t :: remaining s1 -> is_expression_token t = true ->
  remaining s1 = seg ++ remaining s2 -> forallb is_expression_token seg = true ->
  exists seg' : list Token,
    remaining self = seg' ++ remaining s2 /\ forallb is_expression_token seg' = true.
Proof.
  intros H1 Ht H2 Hseg. exists (t :: seg). rewrite H1, H2. simpl. rewrite Ht, Hseg. auto.
Qed.

Lemma segment_app self seg1 s1 seg2 s2 :
  remaining self = seg1 ++ remaining s1 -> forallb is_expression_token seg1 = true ->
  remaining s1 = seg2 ++ remaining s2 -> forallb is_expression_token seg2 = true ->
  exists seg' : list Token,
    remaining self = seg' ++ remaining s2 /\ forallb is_expression_token seg' = true.
Proof.
  intros H1 Hs1 H2 Hs2. exists (seg1 ++ seg2).
  rewrite H1, H2, app_assoc, forallb_app, Hs1, Hs2. auto.
Qed.

Lemma grammar_consumes_expression fuel :
  consumes_expression (Parser.exp fuel) /\
  (forall acc, consumes_expression (Parser.exp_loop fuel acc)) /\
  consumes_expression (Parser.term fuel) /\
  (forall acc, consumes_expression (Parser.term_loop fuel acc)) /\
  consumes_expression (Parser.fact fuel).
Proof.
  induction fuel as [|fuel (IHe & IHel & IHt & IHtl & IHf)].
  - repeat split; intros; discriminate.
  - split; [|split; [|split; [|split]]].
    + intros self node self' H. rewrite ParserFacts.exp_unfold in H.
      ParserFacts.inv_step.
      apply IHt in H0 as (seg1 & H1 & Hs1). apply IHel in H as (seg2 & H2 & Hs2).
      eapply segment_app; eassumption.
    + intros acc self node self' H. rewrite ParserFacts.exp_loop_unfold in H.
      ParserFacts.inv_step. ParserFacts.inv_step.
      destruct (Parser.peek s) as [token|] eqn:Hp;
        [|ParserFacts.inv_step; apply segment_nil].
      destruct (String.eqb (ttype token) "+" || String.eqb (ttype token) "-") eqn:E;
        [|ParserFacts.inv_step; apply segment_nil].
      ParserFacts.inv_step. ParserFacts.inv_step.
      pose proof (ParserFacts.consume_Return _ _ _ _ H0) as (Hp' & _ & _).
      rewrite Hp in Hp'. inversion Hp'; subst a.
      apply consume_segment in H0 as [Hc _].
      apply IHt in H1 as (seg1 & H1 & Hs1). apply IHel in H as (seg2 & H2 & Hs2).
      destruct (segment_app _ _ _ _ _ H1 Hs1 H2 Hs2) as (seg & Hseg & Hall).
      eapply segment_cons; [exact Hc | | exact Hseg | exact Hall].
      apply expression_type.
      apply orb_true_iff in E as [E|E]; apply String.eqb_eq in E; auto 7.
    + intros self node self' H. rewrite ParserFacts.term_unfold in H.
      ParserFacts.inv_step.
      apply IHf in H0 as (seg1 & H1 & Hs1). apply IHtl in H as (seg2 & H2 & Hs2).
      eapply segment_app; eassumption.
    + intros acc self node self' H. rewrite ParserFacts.term_loop_unfold in H.
      ParserFacts.inv_step. ParserFacts.inv_step.
      destruct (Parser.peek s) as [token|] eqn:Hp;
        [|ParserFacts.inv_step; apply segment_nil].
      destruct (String.eqb (ttype token) "*") eqn:E;
        [|ParserFacts.inv_step; apply segment_nil].
      ParserFacts.inv_step. ParserFacts.inv_step.
      apply consume_segment in H0 as [Hc Hty].
      apply IHf in H1 as (seg1 & H1 & Hs1). apply IHtl in H as (seg2 & H2 & Hs2).
      destruct (segment_app _ _ _ _ _ H1 Hs1 H2 Hs2) as (seg & Hseg & Hall).
      eapply segment_cons; [exact Hc | | exact Hseg | exact Hall].
      apply expression_type. auto 7.
    + intros self node self' H. rewrite ParserFacts.fact_unfold in H.
      ParserFacts.inv_step. ParserFacts.inv_step.
      destruct (Parser.peek s) as [token|] eqn:Hp; [|discriminate].
      destruct (String.eqb (ttype token) "(").
      { do 4 ParserFacts.inv_step.
        apply consume_segment in H0 as [Hc0 Hty0].
        apply IHe in H1 as (seg1 & H1 & Hs1).
        apply consume_segment in H2 as [Hc2 Hty2].
        destruct (segment_cons a1 s1 self' [] self' Hc2) as (seg2 & H2 & Hs2);
          [apply expression_type; auto 7 | reflexivity | reflexivity|].
        destruct (segment_app _ _ _ _ _ H1 Hs1 H2 Hs2) as (seg & Hseg & Hall).
        eapply segment_cons; [exact Hc0 | | exact Hseg | exact Hall].
        apply expression_type. auto 7. }
      destruct (String.eqb (ttype token) "+").
      { do 3 ParserFacts.inv_step.
        apply consume_segment in H0 as [Hc0 Hty0].
        apply IHf in H1 as (seg1 & H1 & Hs1).
        eapply segment_cons; [exact Hc0 | | exact H1 | exact Hs1].
        apply expression_type. auto 7. }
      destruct (String.eqb (ttype token) "-").
      { do 3 ParserFacts.inv_step.
        apply consume_segment in H0 as [Hc0 Hty0].
        apply IHf in H1 as (seg1 & H1 & Hs1).
        eapply segment_cons; [exact Hc0 | | exact H1 | exact Hs1].
        apply expression_type. auto 7. }
      destruct (String.eqb (ttype token) "LITERAL").
      { do 3 ParserFacts.inv_step.
        apply consume_segment in H0 as [Hc0 Hty0].
        unfold lift in H1. inversion H1; subst.
        eapply (segment_cons _ _ _ []); [exact Hc0 | | reflexivity | reflexivity].
        apply expression_type. auto 7. }
      destruct (String.eqb (ttype token) "IDENTIFIER").
      { do 2 ParserFacts.inv_step.
        apply consume_segment in H0 as [Hc0 Hty0].
        eapply (segment_cons _ _ _ []); [exact Hc0 | | reflexivity | reflexivity].
        apply expression_type. auto 7. }
      discriminate.
Qed.

Lemma assignment_segment fuel self a self' :
  Parser.assignment fuel self = (Return a, self') ->
  exists lhs eq seg semi,
    remaining self = lhs :: eq :: seg ++ semi :: remaining self' /\
    ttype lhs = "IDENTIFIER" /\ value lhs = target a /\ ttype eq = "=" /\
    forallb is_expression_token seg = true /\ ttype semi = ";".
Proof.
  intros H. unfold Parser.assignment in H. do 5 ParserFacts.inv_step.
  apply consume_segment in H0 as [Hc0 Hty0].
  apply consume_segment in H1 as [Hc1 Hty1].
  destruct (grammar_consumes_expression fuel) as (He & _).
  apply He in H2 as (seg & Hseg & Hall).
  apply consume_segment in H3 as [Hc3 Hty3].
  exists a0, a1, seg, a3. rewrite Hc0, Hc1, Hseg, Hc3. auto 10.
Qed.

(** *** Lists of tokens *)

Lemma expression_token_type t ty :
  is_expression_token t = true ->
  ty = "EOF" \/ ty = "=" \/ ty = ";" -> String.eqb (ttype t) ty = false.
Proof.
  unfold is_expression_token. simpl. intros H Hty.
  apply String.eqb_neq. intros E. rewrite E in H.
  destruct Hty as [->|[->| ->]]; discriminate.
Qed.

Lemma before_EOF_app l r :
  forallb (fun t => negb (String.eqb (ttype t) "EOF")) l = true ->
  before_EOF (l ++ r) = l ++ before_EOF r.
Proof.
  induction l as [|t l IH]; intros H; [reflexivity|].
  simpl in H. apply andb_true_iff in H as [Ht H]. simpl.
  destruct (String.eqb (ttype t) "EOF"); [discriminate|]. rewrite IH by exact H. reflexivity.
Qed.

Lemma forallb_expression (q : Token -> bool) seg :
  (forall t, is_expression_token t = true -> q t = true) ->
  forallb is_expression_token seg = true -> forallb q seg = true.
Proof.
  intros Hq. induction seg as [|t seg IH]; [reflexivity|].
  simpl. intros H. apply andb_true_iff in H as [Ht H]. rewrite (Hq t Ht). auto.
Qed.

(** A run of tokens none of which is ['='], followed by a token that is
    not ['='] either, holds no target. *)
Lemma targets_skip seg :
  forall t0 R,
    forallb (fun t => negb (String.eqb (ttype t) "=")) seg = true ->
    (forall t, head R = Some t -> String.eqb (ttype t) "=" = false) ->
    targets_of (t0 :: seg ++ R) = targets_of R.
Proof.
  induction seg as [|t seg IH]; intros t0 R Hseg HR.
  - simpl. destruct R as [|u R]; [reflexivity|].
    rewrite (HR u eq_refl). reflexivity.
  - simpl in Hseg. apply andb_true_iff in Hseg as [Ht Hseg].
    change (targets_of (t0 :: (t :: seg) ++ R))
      with (if String.eqb (ttype t) "=" then value t0 :: targets_of (t :: seg ++ R)
            else targets_of (t :: seg ++ R)).
    destruct (String.eqb (ttype t) "="); [discriminate|].
    apply IH; assumption.
Qed.

Lemma targets_of_two t u l :
  targets_of (t :: u :: l)
  = if String.eqb (ttype u) "=" then value t :: targets_of (u :: l)
    else targets_of (u :: l).
Proof. reflexivity. Qed.

Lemma semicolons_app l r : semicolons (l ++ r) = semicolons l + semicolons r.
Proof. unfold semicolons. rewrite List.filter_app, length_app. reflexivity. Qed.

Lemma semicolons_expression seg :
  forallb is_expression_token seg = true -> semicolons seg = 0.
Proof.
  unfold semicolons. induction seg as [|t seg IH]; [reflexivity|].
  simpl. intros H. apply andb_true_iff in H as [Ht H].
  rewrite (expression_token_type t ";" Ht) by auto. apply IH. exact H.
Qed.

(** *** The loop of [parse] *)

Lemma parse_loop_statements fuel acc self assignments self' :
  Parser.parse_loop fuel acc self = (Return assignments, self') ->
  (forall t, head (before_EOF (remaining self)) = Some t -> ttype t = "IDENTIFIER") /\
  map target assignments = map target acc ++ targets_of (before_EOF (remaining self)) /\
  List.length assignments
  = List.length acc + semicolons (before_EOF (remaining self)).
Proof.
  revert acc self. induction fuel as [|fuel IH]; intros acc self H; [discriminate|].
  simpl in H. ParserFacts.inv_step. ParserFacts.inv_step.
  destruct (Parser.peek s) as [token|] eqn:Hp.
  - apply peek_head in Hp.
    destruct (remaining s) as [|t0 R0] eqn:Hr; [discriminate|].
    simpl in Hp. inversion Hp; subst t0.
    destruct (String.eqb (ttype token) "EOF") eqn:E.
    + ParserFacts.inv_step. simpl. rewrite E. simpl.
      rewrite app_nil_r, Nat.add_0_r. split; [discriminate | auto].
    + ParserFacts.inv_step. rewrite <- Hr.
      apply assignment_segment in H0
        as (lhs & eq & seg & semi & Hseg & Hlhs & Hval & Heq & Hall & Hsemi).
      apply IH in H as (Hhead & Htargets & Hcount).
      assert (Hb : before_EOF (remaining s)
                   = (lhs :: eq :: seg ++ [semi]) ++ before_EOF (remaining s0)).
      { rewrite Hseg.
        change (lhs :: eq :: seg ++ semi :: remaining s0)
          with ((lhs :: eq :: seg) ++ [semi] ++ remaining s0).
        rewrite app_assoc. apply before_EOF_app.
        cbn [forallb]. rewrite Hlhs, Heq. cbn [String.eqb Ascii.eqb Bool.eqb negb andb].
        rewrite forallb_app. cbn [forallb]. rewrite Hsemi.
        cbn [String.eqb Ascii.eqb Bool.eqb negb andb]. rewrite andb_true_r.
        apply (forallb_expression _ seg); [|exact Hall].
        intros t Ht. rewrite (expression_token_type t "EOF" Ht) by auto. reflexivity. }
      rewrite Hb. split; [|split].
      * simpl. intros t Ht. inversion Ht; subst. exact Hlhs.
      * rewrite Htargets, map_app. cbn [map]. rewrite <- app_assoc. f_equal.
        cbn [app]. symmetry.
        rewrite targets_of_two, Heq. cbn [String.eqb Ascii.eqb Bool.eqb].
        rewrite Hval. f_equal.
        apply targets_skip.
        -- rewrite forallb_app. cbn [forallb]. rewrite Hsemi.
           cbn [String.eqb Ascii.eqb Bool.eqb negb andb]. rewrite andb_true_r.
           apply (forallb_expression _ seg); [|exact Hall].
           intros t Ht. rewrite (expression_token_type t "=" Ht) by auto. reflexivity.
        -- intros t Ht. rewrite (Hhead t Ht). reflexivity.
      * rewrite Hcount, length_app. simpl List.length.
        change (lhs :: eq :: seg ++ [semi]) with ([lhs; eq] ++ seg ++ [semi]).
        rewrite !semicolons_app, (semicolons_expression seg Hall).
        assert (H2 : semicolons [lhs; eq] = 0)
          by (unfold semicolons; simpl; rewrite Hlhs, Heq; reflexivity).
        assert (H1 : semicolons [semi] = 1)
          by (unfold semicolons; simpl; rewrite Hsemi; reflexivity).
        rewrite H2, H1. lia.
  - ParserFacts.inv_step.
    rewrite ChainFacts.peek_remaining in Hp.
    destruct (remaining self') as [|t0 R0]; [|discriminate].
    simpl. rewrite app_nil_r, Nat.add_0_r. split; [discriminate | auto].
Qed.

End StatementFacts.

(** X11: when [parse] succeeds, the statements it returns are those of the
    tokens before the first end-of-input token, one for one and in source
    order: there is one statement per [';'] token, and the statements'
    targets are, in order, the texts of the tokens that stand right before
    an ['='] token. *)
Theorem parse_keeps_statement_order (tokens : list Token) (assignments : list assign) :
  fst (Parser.parse (Parser.init tokens)) = Return assignments ->
  map target assignments = targets_of (before_EOF tokens) /\
  List.length assignments = semicolons (before_EOF tokens).
Proof.
  intros H. unfold Parser.parse in H.
  destruct (Parser.parse_loop _ [] (Parser.init tokens)) as [o self'] eqn:E.
  simpl in H. subst o.
  apply StatementFacts.parse_loop_statements in E as (_ & Ht & Hc).
  exact (conj Ht Hc).
Qed.

(** X11 at the tokens of [b = 1; a = b * (b + 2);]. *)
Lemma parse_keeps_statement_order_witness :
  let tokens :=
    [identifier "b"; operator "="; mkToken "LITERAL" "1"; operator ";";
     identifier "a"; operator "="; identifier "b"; operator "*"; operator "(";
     identifier "b"; operator "+"; mkToken "LITERAL" "2"; operator ")"; operator ";";
     mkToken "EOF" ""] in
  let assignments : list assign :=
    [("assign", "b", PyTuple [PyStr "lit"; PyInt 1]);
     ("assign", "a",
      PyTuple [PyStr "*"; var "b";
               PyTuple [PyStr "+"; var "b"; PyTuple [PyStr "lit"; PyInt 2]]])] in
  map target assignments = targets_of (before_EOF tokens) /\
  List.length assignments = semicolons (before_EOF tokens).
Proof.
  intros tokens assignments.
  apply (parse_keeps_statement_order tokens assignments).
  vm_compute. reflexivity.
Defined.

(** * Further properties: precedence and the value of a chain *)

Module PrecedenceFacts.

Lemma term_product fuel self (p : product) next more :
  Forall multiplicative p.2 ->
  remaining self = product_tokens p ++ next :: more ->
  ttype next <> "*" ->
  List.length p.2 + 2 <= fuel ->
  Parser.term fuel self
  = (Return (product_tree p), skip (1 + 2 * List.length p.2) self).
Proof.
  intros Hmul Hr Hnext Hf. destruct fuel as [|[|fuel]]; try lia.
  assert (Hr1 : remaining (skip 1 self) = chain_tokens p.2 ++ next :: more).
  { rewrite ChainFacts.remaining_skip, Hr. reflexivity. }
  rewrite ParserFacts.term_unfold. unfold bind at 1.
  rewrite (ChainFacts.fact_identifier _ _ p.1 (chain_tokens p.2 ++ next :: more) Hr).
  rewrite (ChainFacts.term_loop_chain p.2 _ _ _ next more Hmul Hr1 Hnext) by lia.
  rewrite ChainFacts.skip_skip. reflexivity.
Qed.

Lemma product_tokens_length (p : product) :
  List.length (product_tokens p) = 1 + 2 * List.length p.2.
Proof. unfold product_tokens. simpl. rewrite ChainFacts.chain_tokens_length. lia. Qed.

Lemma sum_head terms stop more :
  Forall signed_product terms ->
  exists next r, sum_tokens terms ++ stop :: more = next :: r /\
                 (next = stop \/ ttype next = "+" \/ ttype next = "-").
Proof.
  intros H. destruct terms as [|[op p] terms]; simpl.
  - exists stop, more. auto.
  - apply Forall_cons in H as [[Hop _] _]. eexists _, _. split; [reflexivity|].
    right. exact Hop.
Qed.

Lemma exp_loop_sum terms :
  forall fuel acc self stop more,
    Forall signed_product terms ->
    remaining self = sum_tokens terms ++ stop :: more ->
    ttype stop <> "+" -> ttype stop <> "-" -> ttype stop <> "*" ->
    List.length (sum_tokens terms) + 1 <= fuel ->
    Parser.exp_loop fuel acc self
    = (Return (sum_tree acc terms), skip (List.length (sum_tokens terms)) self).
Proof.
  induction terms as [|[op p] terms IH];
    intros fuel acc self stop more Hterms Hr Hp Hm Ht Hf.
  - destruct fuel as [|fuel]; [simpl in Hf; lia|].
    simpl in Hr. rewrite (ChainFacts.exp_loop_stops _ _ _ _ _ Hr Hp Hm).
    unfold skip. simpl. rewrite Nat.add_0_r. destruct self; reflexivity.
  - destruct fuel as [|fuel]; [simpl in Hf; lia|].
    pose proof Hterms as Hall.
    apply Forall_cons in Hterms as [[Hop Hmul] Hterms]. simpl in Hop, Hmul.
    assert (Hlen : List.length (sum_tokens ((op, p) :: terms))
                   = 1 + (1 + 2 * List.length p.2) + List.length (sum_tokens terms)).
    { simpl. rewrite length_app, ChainFacts.chain_tokens_length. lia. }
    rewrite Hlen in Hf |- *.
    assert (Hr0 : remaining self
                  = operator op :: product_tokens p ++ sum_tokens terms ++ stop :: more).
    { rewrite Hr. simpl. rewrite <- app_assoc. reflexivity. }
    rewrite ParserFacts.exp_loop_unfold. unfold bind at 1, gets.
    rewrite ChainFacts.peek_remaining, Hr0. cbn [head operator ttype].
    assert (E : String.eqb op "+" || String.eqb op "-" = true).
    { destruct Hop as [->| ->]; reflexivity. }
    rewrite E. unfold bind at 1.
    rewrite (ChainFacts.consume_head None _ _ _ Hr0 I). cbn [operator value].
    assert (Hr1 : remaining (skip 1 self)
                  = product_tokens p ++ sum_tokens terms ++ stop :: more).
    { rewrite ChainFacts.remaining_skip, Hr0. reflexivity. }
    destruct (sum_head terms stop more Hterms) as (next & r & Hnext & Hwhich).
    rewrite Hnext in Hr1.
    unfold bind at 1.
    rewrite (term_product _ _ p next r Hmul Hr1) by
      (first [lia | destruct Hwhich as [->|[E'|E']]; [exact Ht | rewrite E'; discriminate
                                                     | rewrite E'; discriminate]]).
    rewrite ChainFacts.skip_skip.
    assert (Hr2 : remaining (skip (1 + (1 + 2 * List.length p.2)) self)
                  = sum_tokens terms ++ stop :: more).
    { rewrite ChainFacts.remaining_skip, Hr0.
      replace (1 + (1 + 2 * List.length p.2)) with (S (List.length (product_tokens p)))
        by (rewrite product_tokens_length; lia).
      cbn [drop skipn]. rewrite drop_app_length. reflexivity. }
    rewrite (IH _ _ _ stop more Hterms Hr2 Hp Hm Ht) by lia.
    rewrite ChainFacts.skip_skip. reflexivity.
Qed.

Lemma exp_sum fuel self (first : product) terms stop more :
  Forall multiplicative first.2 -> Forall signed_product terms ->
  remaining self = product_tokens first ++ sum_tokens terms ++ stop :: more ->
  ttype stop <> "+" -> ttype stop <> "-" -> ttype stop <> "*" ->
  List.length (product_tokens first ++ sum_tokens terms) + 2 <= fuel ->
  Parser.exp fuel self
  = (Return (sum_tree (product_tree first) terms),
     skip (List.length (product_tokens first ++ sum_tokens terms)) self).
Proof.
  intros Hfirst Hterms Hr Hp Hm Ht Hf.
  rewrite length_app, product_tokens_length in Hf |- *.
  destruct fuel as [|fuel]; [lia|].
  destruct (sum_head terms stop more Hterms) as (next & r & Hnext & Hwhich).
  pose proof Hr as Hr'. rewrite Hnext in Hr'.
  rewrite ParserFacts.exp_unfold. unfold bind at 1.
  rewrite (term_product _ _ first next r Hfirst Hr') by
    (first [lia | destruct Hwhich as [->|[E'|E']]; [exact Ht | rewrite E'; discriminate
                                                   | rewrite E'; discriminate]]).
  assert (Hr2 : remaining (skip (1 + 2 * List.length first.2) self)
                = sum_tokens terms ++ stop :: more).
  { rewrite ChainFacts.remaining_skip, Hr, <- product_tokens_length.
    rewrite drop_app_length. reflexivity. }
  rewrite (exp_loop_sum terms _ _ _ stop more Hterms Hr2 Hp Hm Ht) by lia.
  rewrite ChainFacts.skip_skip. reflexivity.
Qed.

(** *** The value of a chain *)


End PrecedenceFacts.

(** X12: multiplication binds tighter than addition and subtraction, for
    every sum of products of names: on the tokens of
    [p0 s1 p1 ... sn pn], each [pi] a product [a * b * ...] and each [si]
    a plus or a minus sign, [exp] returns the tree that adds and subtracts
    the trees of the products from the left, each product grouped from the
    left by itself. *)
Theorem products_bind_tighter
  (first : product) (terms : list (string * product))
  (stop : Token) (more : list Token) (fuel : nat) :
  Forall multiplicative first.2 -> Forall signed_product terms ->
  ttype stop <> "+" -> ttype stop <> "-" -> ttype stop <> "*" ->
  List.length (product_tokens first ++ sum_tokens terms) + 2 <= fuel ->
  fst (Parser.exp fuel
         (Parser.init (product_tokens first ++ sum_tokens terms ++ stop :: more)))
  = Return (sum_tree (product_tree first) terms).
Proof.
  intros Hfirst Hterms Hp Hm Ht Hf.
  rewrite (PrecedenceFacts.exp_sum fuel _ first terms stop more Hfirst Hterms);
    [reflexivity | reflexivity | assumption..].
Qed.

(** X12 at [a + b * c - d ;]. *)
Lemma products_bind_tighter_witness :
  fst (Parser.exp 20
         (Parser.init (product_tokens ("a", [])
                       ++ sum_tokens [("+", ("b", [("*", "c")])); ("-", ("d", []))]
                       ++ operator ";" :: [mkToken "EOF" ""])))
  = Return (sum_tree (product_tree ("a", []))
              [("+", ("b", [("*", "c")])); ("-", ("d", []))]).
Proof.
  apply (products_bind_tighter ("a", [])
           [("+", ("b", [("*", "c")])); ("-", ("d", []))]
           (operator ";") [mkToken "EOF" ""] 20).
  - apply Forall_nil. exact I.
  - apply Forall_cons. split.
    + split; [left; reflexivity|]. simpl.
      apply Forall_cons. split; [reflexivity | apply Forall_nil; exact I].
    + apply Forall_cons. split; [|apply Forall_nil; exact I].
      split; [right; reflexivity | apply Forall_nil; exact I].
  - discriminate.
  - discriminate.
  - discriminate.
  - simpl. lia.
Defined.



(** * Further properties: the scanner looks only ahead *)

Module ShiftFacts.

Lemma get_shift pre t i :
  String.get (String.length pre + i) (pre +:+ t) = String.get i t.
Proof. induction pre as [|c pre IH]; [reflexivity | exact IH]. Qed.

Lemma drop_shift pre t a : Py.drop (String.length pre + a) (pre +:+ t) = Py.drop a t.
Proof. induction pre as [|c pre IH]; [reflexivity | exact IH]. Qed.

Lemma slice_shift pre t a b :
  Py.slice (pre +:+ t) (String.length pre + a) (String.length pre + b) = Py.slice t a b.
Proof.
  unfold Py.slice. rewrite drop_shift. f_equal. lia.
Qed.

Lemma peek_shift pre s : Lexer.peek (shift pre s) = Lexer.peek s.
Proof.
  unfold Lexer.peek, shift. simpl. rewrite get_shift.
  destruct (Lexer.pos s <? Lexer.length s) eqn:E.
  - apply Nat.ltb_lt in E.
    replace (String.length pre + Lexer.pos s <? String.length pre + Lexer.length s)
      with true by (symmetry; apply Nat.ltb_lt; lia).
    reflexivity.
  - apply Nat.ltb_ge in E.
    replace (String.length pre + Lexer.pos s <? String.length pre + Lexer.length s)
      with false by (symmetry; apply Nat.ltb_ge; lia).
    reflexivity.
Qed.

Lemma advance_shift pre s : Lexer.advance (shift pre s) = shift pre (Lexer.advance s).
Proof. unfold Lexer.advance, shift. simpl. f_equal. lia. Qed.

Lemma advance_while_shift p n pre s :
  Lexer.advance_while p n (shift pre s) = shift pre (Lexer.advance_while p n s).
Proof.
  revert s. induction n as [|n IH]; intros s; [reflexivity|].
  simpl. rewrite peek_shift. destruct (Lexer.peek s) as [c|]; [|reflexivity].
  destruct (p c); [|reflexivity]. rewrite advance_shift. apply IH.
Qed.

Lemma while_peek_shift p pre s :
  Lexer.while_peek p (shift pre s) = shift pre (Lexer.while_peek p s).
Proof.
  unfold Lexer.while_peek. rewrite <- advance_while_shift. f_equal.
  unfold shift. simpl. lia.
Qed.

(** One call of [next_token] behind a prefix. *)
Lemma next_token_shift pre s :
  Lexer.next_token (shift pre s)
  = (fst (Lexer.next_token s), shift pre (snd (Lexer.next_token s))).
Proof.
  unfold Lexer.next_token, bind, modify, gets, ret, raise, Lexer.error, Lexer.text_at.
  cbn beta iota. unfold Lexer.skip_whitespace.
  rewrite while_peek_shift, peek_shift.
  set (s1 := Lexer.while_peek Py.isspace s).
  destruct (Lexer.peek s1) as [c|] eqn:Hc; [|reflexivity].
  pose proof (LexerFacts.cursor_on_char _ _ Hc) as [_ Hget].
  repeat (match goal with
          | |- context [if (c =? ?x)%char then _ else _] =>
              destruct (c =? x)%char; [rewrite advance_shift; reflexivity|]
          end).
  destruct (Py.isalpha c || (c =? "_")%char).
  { rewrite while_peek_shift. cbn [fst snd shift Lexer.text Lexer.pos].
    rewrite slice_shift. reflexivity. }
  destruct (Py.isdigit c); [|reflexivity].
  rewrite advance_shift.
  cbn [shift Lexer.text Lexer.pos Lexer.advance]. rewrite get_shift, Hget.
  destruct (negb (c =? "0")%char); cbn beta iota.
  - change (shift pre {| Lexer.text := Lexer.text s1; Lexer.pos := Lexer.pos s1 + 1;
                         Lexer.length := Lexer.length s1 |})
      with (shift pre (Lexer.advance s1)).
    rewrite while_peek_shift. cbn [fst snd shift Lexer.text Lexer.pos].
    rewrite slice_shift. reflexivity.
  - change ({| Lexer.text := pre +:+ Lexer.text s1;
               Lexer.pos := String.length pre + (Lexer.pos s1 + 1);
               Lexer.length := String.length pre + Lexer.length s1 |})
      with (shift pre (Lexer.advance s1)).
    rewrite peek_shift.
    destruct (Lexer.peek (Lexer.advance s1)) as [d|].
    + destruct (Py.isdigit d); [reflexivity|].
      cbn [fst snd shift Lexer.text Lexer.pos Lexer.advance].
      rewrite slice_shift. reflexivity.
    + cbn [fst snd shift Lexer.text Lexer.pos Lexer.advance].
      rewrite slice_shift. reflexivity.
Qed.

Lemma tokenize_loop_shift fuel acc pre s :
  Lexer.tokenize_loop fuel acc (shift pre s)
  = (fst (Lexer.tokenize_loop fuel acc s), shift pre (snd (Lexer.tokenize_loop fuel acc s))).
Proof.
  revert acc s. induction fuel as [|fuel IH]; intros acc s; [reflexivity|].
  rewrite !LexerFacts.tokenize_loop_unfold, next_token_shift.
  destruct (Lexer.next_token s) as [[token|e|] s']; simpl; [|reflexivity|reflexivity].
  destruct (String.eqb (ttype token) "EOF"); [reflexivity | apply IH].
Qed.

(** More budget than the rest of the text does not change the result. *)
Lemma tokenize_loop_budget f1 :
  forall f2 acc s,
    Lexer.length s - Lexer.pos s < f1 -> Lexer.length s - Lexer.pos s < f2 ->
    Lexer.tokenize_loop f1 acc s = Lexer.tokenize_loop f2 acc s.
Proof.
  induction f1 as [|f1 IH]; intros f2 acc s H1 H2; [lia|].
  destruct f2 as [|f2]; [lia|].
  rewrite !LexerFacts.tokenize_loop_unfold.
  destruct (Lexer.next_token s) as [[token|e|] s'] eqn:Hn; [|reflexivity|reflexivity].
  destruct (String.eqb (ttype token) "EOF") eqn:E; [reflexivity|].
  apply String.eqb_neq in E.
  pose proof (LexerFacts.next_token_inv _ _ _ Hn) as Hs.
  pose proof (LexerFacts.next_token_fields _ _ _ Hn) as (_ & Hl & _).
  destruct (LexerFacts.scanned_progress _ _ _ Hs E) as [Hlt Hmove].
  destruct (LexerFacts.while_peek_fields Py.isspace s) as (_ & Hl' & Hp').
  unfold Lexer.skip_whitespace in *.
  apply IH; lia.
Qed.

(** [next_token] starts by skipping white space, so a state and the state
    one white-space character further give the same call. *)
Lemma next_token_after_space s c :
  Lexer.peek s = Some c -> Py.isspace c = true ->
  Lexer.next_token s = Lexer.next_token (Lexer.advance s).
Proof.
  intros Hc Hsp.
  assert (H : Lexer.skip_whitespace s = Lexer.skip_whitespace (Lexer.advance s)).
  { unfold Lexer.skip_whitespace. rewrite (LexerFacts.while_peek_unfold _ s), Hc, Hsp.
    reflexivity. }
  unfold Lexer.next_token, bind, modify. rewrite H. reflexivity.
Qed.

Lemma tokenize_behind pre text :
  fst (Lexer.tokenize (shift pre (Lexer.init text)))
  = fst (Lexer.tokenize (Lexer.init text)).
Proof.
  unfold Lexer.tokenize. rewrite tokenize_loop_shift. cbn [fst].
  f_equal. apply tokenize_loop_budget; unfold shift; simpl; lia.
Qed.

Lemma tokenize_leading_space c text :
  Py.isspace c = true ->
  fst (Lexer.tokenize (Lexer.init (String c text)))
  = fst (Lexer.tokenize (Lexer.init text)).
Proof.
  intros Hsp. rewrite <- (tokenize_behind (String c "") text).
  unfold Lexer.tokenize.
  change (shift (String c "") (Lexer.init text))
    with (Lexer.advance (Lexer.init (String c text))).
  cbn [Lexer.init Lexer.advance Lexer.length Lexer.pos String.length].
  rewrite !LexerFacts.tokenize_loop_unfold.
  rewrite (next_token_after_space (Lexer.init (String c text)) c eq_refl Hsp).
  cbn [Lexer.init Lexer.advance Lexer.length Lexer.pos Lexer.text String.length].
  destruct (Lexer.next_token _) as [[token|e|] s'] eqn:Hn; [|reflexivity|reflexivity].
  destruct (String.eqb (ttype token) "EOF") eqn:E; [reflexivity|].
  apply String.eqb_neq in E. f_equal.
  pose proof (LexerFacts.next_token_inv _ _ _ Hn) as Hs.
  pose proof (LexerFacts.next_token_fields _ _ _ Hn) as (_ & Hl & Hp).
  destruct (LexerFacts.scanned_progress _ _ _ Hs E) as [Hlt Hmove].
  match type of Hs with scanned (Lexer.skip_whitespace ?s0) _ _ =>
    destruct (LexerFacts.while_peek_fields Py.isspace s0) as (_ & Hl' & Hp') end.
  unfold Lexer.skip_whitespace in *. simpl in Hl, Hl', Hp, Hp'.
  apply tokenize_loop_budget; lia.
Qed.

Lemma tokenize_leading_spaces ws text :
  all_chars Py.isspace ws = true ->
  fst (Lexer.tokenize (Lexer.init (ws +:+ text)))
  = fst (Lexer.tokenize (Lexer.init text)).
Proof.
  induction ws as [|c ws IH]; intros H; [reflexivity|].
  unfold all_chars in H. simpl in H. apply andb_true_iff in H as [Hc H].
  change (String c ws +:+ text) with (String c (ws +:+ text)).
  rewrite (tokenize_leading_space c _ Hc). apply IH. exact H.
Qed.

End ShiftFacts.

(** X14: the scanner looks only ahead.  Started at the end of any prefix,
    it returns the tokens, or raises the error, of the text that follows
    the prefix alone; and white space before a program changes neither its
    tokens nor what [run_program] does with it. *)
Theorem scanner_looks_only_ahead (pre ws text : string) :
  all_chars Py.isspace ws = true ->
  fst (Lexer.tokenize
         (Lexer.mkLexer (pre +:+ text) (String.length pre)
            (String.length pre + String.length text)))
  = fst (Lexer.tokenize (Lexer.init text)) /\
  fst (Lexer.tokenize (Lexer.init (ws +:+ text)))
  = fst (Lexer.tokenize (Lexer.init text)) /\
  run_program (ws +:+ text) = run_program text.
Proof.
  intros Hws. split; [|split].
  - rewrite <- (ShiftFacts.tokenize_behind pre text).
    unfold shift, Lexer.init. simpl. rewrite Nat.add_0_r. reflexivity.
  - apply ShiftFacts.tokenize_leading_spaces. exact Hws.
  - unfold run_program. cbv zeta.
    rewrite (ShiftFacts.tokenize_leading_spaces ws text Hws). reflexivity.
Qed.

(** X14 at the prefix [y = 2;], the white space of a line feed and two
    blanks, and the text [x = 1;]. *)
Lemma scanner_looks_only_ahead_witness :
  let ws := nl +:+ "  " in
  fst (Lexer.tokenize
         (Lexer.mkLexer ("y = 2;" +:+ "x = 1;") (String.length "y = 2;")
            (String.length "y = 2;" + String.length "x = 1;")))
  = fst (Lexer.tokenize (Lexer.init "x = 1;")) /\
  fst (Lexer.tokenize (Lexer.init (ws +:+ "x = 1;")))
  = fst (Lexer.tokenize (Lexer.init "x = 1;")) /\
  run_program (ws +:+ "x = 1;") = run_program "x = 1;".
Proof.
  intros ws.
  apply (scanner_looks_only_ahead "y = 2;" ws "x = 1;").
  vm_compute. reflexivity.
Defined.

(** * Further properties: parentheses, blank programs, token display *)

Module GroupFacts.

Lemma fact_parenthesised fuel self a0 chain more :
  Forall additive chain \/ Forall multiplicative chain ->
  remaining self
  = operator "(" :: identifier a0 :: chain_tokens chain ++ operator ")" :: more ->
  List.length chain + 5 <= fuel ->
  Parser.fact fuel self
  = (Return (fold_chain (var a0) chain), skip (3 + 2 * List.length chain) self).
Proof.
  intros Hlevel Hr Hf. destruct fuel as [|fuel]; [lia|].
  assert (Hr1 : remaining (skip 1 self)
                = identifier a0 :: chain_tokens chain ++ operator ")" :: more).
  { rewrite ChainFacts.remaining_skip, Hr. reflexivity. }
  rewrite ParserFacts.fact_unfold. unfold bind at 1, gets.
  rewrite ChainFacts.peek_remaining, Hr. cbn [head operator ttype String.eqb Ascii.eqb Bool.eqb].
  unfold bind at 1. rewrite (ChainFacts.consume_head (Some "(") _ _ _ Hr eq_refl).
  unfold bind at 1.
  rewrite (ChainFacts.exp_chain fuel _ a0 chain (operator ")") more Hlevel Hr1)
    by (simpl; (discriminate || lia)).
  rewrite ChainFacts.skip_skip.
  assert (Hr2 : remaining (skip (1 + (1 + 2 * List.length chain)) self)
                = operator ")" :: more).
  { rewrite <- ChainFacts.skip_skip, ChainFacts.remaining_skip, Hr1.
    replace (1 + 2 * List.length chain) with (S (List.length (chain_tokens chain)))
      by (rewrite ChainFacts.chain_tokens_length; lia).
    cbn [drop skipn]. rewrite drop_app_length. reflexivity. }
  unfold bind at 1. rewrite (ChainFacts.consume_head (Some ")") _ _ _ Hr2 eq_refl).
  rewrite ChainFacts.skip_skip. unfold ret, skip. simpl. repeat (f_equal; try lia).
Qed.

Lemma append_empty s : s +:+ "" = s.
Proof.
  induction s as [|c s IH]; [reflexivity|].
  change (String c s +:+ "") with (String c (s +:+ "")). rewrite IH. reflexivity.
Qed.

End GroupFacts.

(** X15: parentheses only group.  On the tokens of [( a0 op1 a1 ... opn an )],
    the operators all [+] or [-], or all [*], [fact] returns the tree of the
    chain inside, grouped from the left, with no node for the
    parentheses. *)
Theorem parentheses_only_group
  (a0 : string) (chain : list (string * string)) (more : list Token) (fuel : nat) :
  Forall additive chain \/ Forall multiplicative chain ->
  List.length chain + 5 <= fuel ->
  fst (Parser.fact fuel
         (Parser.init (operator "(" :: identifier a0
                       :: chain_tokens chain ++ operator ")" :: more)))
  = Return (fold_chain (var a0) chain).
Proof.
  intros Hlevel Hf.
  rewrite (GroupFacts.fact_parenthesised fuel _ a0 chain more Hlevel); [reflexivity | | exact Hf].
  reflexivity.
Qed.

(** X15 at [(b - c)] followed by [;]. *)
Lemma parentheses_only_group_witness :
  fst (Parser.fact 7
         (Parser.init (operator "(" :: identifier "b"
                       :: chain_tokens [("-", "c")] ++ operator ")" :: [operator ";"])))
  = Return (fold_chain (var "b") [("-", "c")]).
Proof.
  apply (parentheses_only_group "b" [("-", "c")] [operator ";"] 7).
  - left. apply Forall_cons. split; [right; reflexivity | apply Forall_nil; exact I].
  - simpl. lia.
Defined.

(** X16: a text of white space only, the empty text included, is an empty
    program: its only token is the end-of-input token and [run_program]
    prints nothing. *)
Theorem blank_text_is_an_empty_program (ws : string) :
  all_chars Py.isspace ws = true ->
  fst (Lexer.tokenize (Lexer.init ws)) = Return [mkToken "EOF" ""] /\
  run_program ws = Return [].
Proof.
  intros Hws.
  pose proof (ShiftFacts.tokenize_leading_spaces ws "" Hws) as H.
  rewrite GroupFacts.append_empty in H.
  split; [rewrite H; reflexivity|].
  unfold run_program. cbv zeta. rewrite H. reflexivity.
Qed.

(** X16 at a line feed, a tab and a blank. *)
Lemma blank_text_is_an_empty_program_witness :
  fst (Lexer.tokenize (Lexer.init (nl +:+ String "009" " "))) = Return [mkToken "EOF" ""] /\
  run_program (nl +:+ String "009" " ") = Return [].
Proof.
  apply (blank_text_is_an_empty_program (nl +:+ String "009" " ")).
  vm_compute. reflexivity.
Defined.

Module ReprFacts.

Lemma append_cancel_r v1 :
  forall v2, v1 +:+ ")" = v2 +:+ ")" -> v1 = v2.
Proof.
  induction v1 as [|c v1 IH]; intros [|d v2] H; cbv [String.append] in H;
    fold String.append in H.
  - reflexivity.
  - inversion H as [[Hc Hv]]. destruct v2; discriminate.
  - inversion H as [[Hc Hv]]. destruct v1; discriminate.
  - inversion H as [[Hc Hv]]. f_equal. apply IH. exact Hv.
Qed.

Lemma repr_value ty v1 v2 :
  Token_repr (mkToken ty v1) = Token_repr (mkToken ty v2) -> v1 = v2.
Proof.
  unfold Token_repr. simpl ttype. simpl value. intros H.
  apply String.app_inj in H. apply String.app_inj in H. apply String.app_inj in H.
  apply append_cancel_r. exact H.
Qed.

End ReprFacts.

(** X17: the display of a token the scanner makes tells the token: two
    scanner tokens with the same [repr] are the same token. *)
Theorem Token_repr_tells_the_token (t1 t2 : Token) :
  token_ok t1 -> token_ok t2 -> Token_repr t1 = Token_repr t2 -> t1 = t2.
Proof.
  intros H1 H2 H.
  destruct t1 as [ty1 v1], t2 as [ty2 v2].
  assert (Hty : ty1 = ty2).
  { destruct H1 as [(c1 & _ & E1) | [[E1 _] | [[E1 _] | E1]]];
      destruct H2 as [(c2 & _ & E2) | [[E2 _] | [[E2 _] | E2]]];
      simpl in E1, E2; try (inversion E1; subst); try (inversion E2; subst);
      try reflexivity;
      cbv [Token_repr String.append ttype value] in H; fold String.append in H;
      try discriminate H.
    inversion H. reflexivity. }
  subst ty2. f_equal. apply (ReprFacts.repr_value ty1). exact H.
Qed.

(** X17 at two equal identifier tokens. *)
Lemma Token_repr_tells_the_token_witness :
  mkToken "IDENTIFIER" "x1" = mkToken "IDENTIFIER" "x1".
Proof.
  apply (Token_repr_tells_the_token (mkToken "IDENTIFIER" "x1") (mkToken "IDENTIFIER" "x1")).
  - right. left. split; [reflexivity|]. exists "x"%char, "1". repeat split; reflexivity.
  - right. left. split; [reflexivity|]. exists "x"%char, "1". repeat split; reflexivity.
  - reflexivity.
Defined.
